(** * GSMArena scraper: a shallow embedding of the three batch jobs

    The Python sources [phone_review_url_scraper.py],
    [phone_specs_scraper.py] and [phone_image_scraper.py] are embedded as
    Rocq functions.  A Python [str] is a [string]; a character is a code
    point below 256 (the Latin-1 range of Unicode), classified the way
    Python classifies that code point.  Dictionaries are [gmap]s, or
    association lists where the insertion order is observable.  A parsed
    page is a record of the answers to the queries that the code makes on
    it.  The network is an explicit argument: a script of responses for the
    review lister (one response per request, in request order), an abstract
    world that is threaded through every request for the image fetcher.
    Files are a map from path to content, paths are POSIX paths, and
    [print] and [time.sleep] are left out. *)

From Stdlib Require Import ZArith Lia Ascii DecimalString DecimalPos DecimalZ.
From stdpp Require Import base option list gmap strings sorting.

Local Open Scope Z_scope.

(** [simpl] may unfold an append whose first argument starts with a
    character. *)
#[local] Arguments String.append !_ _ /.

(** ** Python string primitives *)

Module Py.

Definition code (c : ascii) : N := N_of_ascii c.

(** [str.isspace] and the regex class [\s] on one code point. *)
Definition isspace (c : ascii) : bool :=
  let n := code c in
  ((9 <=? n) && (n <=? 13) || (28 <=? n) && (n <=? 32)
   || (n =? 133) || (n =? 160))%N.

(** The regex class [\w]: alphanumeric code points and the underscore. *)
Definition isword (c : ascii) : bool :=
  let n := code c in
  ((48 <=? n) && (n <=? 57) || (65 <=? n) && (n <=? 90)
   || (97 <=? n) && (n <=? 122) || (n =? 95)
   || (n =? 170) || (n =? 178) || (n =? 179) || (n =? 181)
   || (n =? 185) || (n =? 186) || (188 <=? n) && (n <=? 190)
   || (192 <=? n) && (n <=? 214) || (216 <=? n) && (n <=? 246)
   || (248 <=? n))%N.

(** [str.lower] on one code point. *)
Definition lower_char (c : ascii) : ascii :=
  let n := code c in
  if ((65 <=? n) && (n <=? 90)
      || (192 <=? n) && (n <=? 222) && negb (n =? 215))%N
  then ascii_of_N (n + 32) else c.

Fixpoint lower (s : string) : string :=
  match s with
  | EmptyString => EmptyString
  | String c s' => String (lower_char c) (lower s')
  end.

(** [bool(s)]: a string is truthy when it is not empty. *)
Definition truthy (s : string) : bool :=
  match s with EmptyString => false | String _ _ => true end.

(** [s[:n]] for a natural [n]. *)
Fixpoint str_take (n : nat) (s : string) : string :=
  match n, s with
  | S k, String c s' => String c (str_take k s')
  | _, _ => EmptyString
  end.

(** [s.startswith(p)], returning what follows the prefix. *)
Fixpoint strip_prefix (p s : string) : option string :=
  match p, s with
  | EmptyString, _ => Some s
  | String a p', String b s' =>
      if Ascii.eqb a b then strip_prefix p' s' else None
  | String _ _, EmptyString => None
  end.

(** The first occurrence of a non-empty [sep] in [s], as the text before
    it and the text after it ([str.find], [str.partition]). *)
Fixpoint find_sub (sep s : string) : option (string * string) :=
  match strip_prefix sep s with
  | Some r => Some (EmptyString, r)
  | None =>
      match s with
      | EmptyString => None
      | String c s' =>
          match find_sub sep s' with
          | Some (b, a) => Some (String c b, a)
          | None => None
          end
      end
  end.

(** [sep in s]. *)
Definition contains (sep s : string) : bool :=
  match find_sub sep s with Some _ => true | None => false end.

(** [s.split(sep)] for a non-empty [sep]: the occurrences are taken from
    the left and do not overlap.  Every occurrence consumes a character,
    so [String.length s] rounds are enough. *)
Fixpoint split_fuel (fuel : nat) (sep s : string) : list string :=
  match fuel with
  | O => [s]
  | S f =>
      match find_sub sep s with
      | Some (b, a) => b :: split_fuel f sep a
      | None => [s]
      end
  end.

Definition split (sep s : string) : list string :=
  split_fuel (String.length s) sep s.

(** [l[-1]] on a list of strings that is never empty here. *)
Definition last_item (l : list string) : string := List.last l EmptyString.

(** [re.sub] with a pattern that cannot match the empty string.  The
    pattern is given by its matcher: [m s] is what follows the match when
    the pattern matches at the start of [s].  Matches are looked for from
    the left; after a match the scan resumes behind it. *)
Fixpoint sub_fuel (fuel : nat) (m : string -> option string)
    (repl s : string) : string :=
  match fuel with
  | O => s
  | S f =>
      match s with
      | EmptyString => EmptyString
      | String c s' =>
          match m s with
          | Some r => repl +:+ sub_fuel f m repl r
          | None => String c (sub_fuel f m repl s')
          end
      end
  end.

Definition sub (m : string -> option string) (repl s : string) : string :=
  sub_fuel (String.length s) m repl s.

(** [s.replace(old, new)] for a non-empty [old]. *)
Definition replace (old new s : string) : string :=
  sub (strip_prefix old) new s.

(** [s.rsplit(sep, 1)] for a one-character [sep]: split at the last
    occurrence. *)
Fixpoint rsplit1 (sep : ascii) (s : string) : list string :=
  match s with
  | EmptyString => [EmptyString]
  | String c s' =>
      match rsplit1 sep s' with
      | [a; b] => [String c a; b]
      | _ => if Ascii.eqb c sep then [EmptyString; s'] else [s]
      end
  end.

(** [s.lstrip(chars)] and [s.rstrip(chars)], the character set given as
    a predicate. *)
Fixpoint lstrip (p : ascii -> bool) (s : string) : string :=
  match s with
  | EmptyString => EmptyString
  | String c s' => if p c then lstrip p s' else s
  end.

Fixpoint rstrip (p : ascii -> bool) (s : string) : string :=
  match s with
  | EmptyString => EmptyString
  | String c s' =>
      match rstrip p s' with
      | EmptyString => if p c then EmptyString else String c EmptyString
      | r => String c r
      end
  end.

Definition strip (p : ascii -> bool) (s : string) : string :=
  rstrip p (lstrip p s).

(** [s.split()]: the maximal runs of non-whitespace characters. *)
Definition cons_word (w : string) (ws : list string) : list string :=
  if truthy w then w :: ws else ws.

Fixpoint split_go (s : string) : string * list string :=
  match s with
  | EmptyString => (EmptyString, [])
  | String c s' =>
      let '(w, ws) := split_go s' in
      if isspace c then (EmptyString, cons_word w ws)
      else (String c w, ws)
  end.

Definition split_ws (s : string) : list string :=
  let '(w, ws) := split_go s in cons_word w ws.

(** [sep.join(l)]. *)
Definition join (sep : string) (l : list string) : string :=
  String.concat sep l.

(** [l[:n]] for a Python integer [n]. *)
Definition slice_to {A} (n : Z) (l : list A) : list A :=
  if 0 <=? n then take (Z.to_nat n) l
  else take (Z.to_nat (Z.of_nat (length l) + n)) l.

(** [l[n:]] for a Python integer [n]. *)
Definition slice_from {A} (n : Z) (l : list A) : list A :=
  if 0 <=? n then drop (Z.to_nat n) l
  else drop (Z.to_nat (Z.of_nat (length l) + n)) l.

(** [str(n)] for an integer. *)
Definition str_of_Z (n : Z) : string :=
  NilZero.string_of_int (Z.to_int n).

(** A greedy whitespace star: skip the whole run of whitespace. *)
Fixpoint skip_spaces (s : string) : string :=
  match s with
  | EmptyString => EmptyString
  | String c s' => if isspace c then skip_spaces s' else s
  end.

(** A lower-case literal matched under [re.IGNORECASE]. *)
Fixpoint strip_prefix_ci (p s : string) : option string :=
  match p, s with
  | EmptyString, _ => Some s
  | String a p', String b s' =>
      if Ascii.eqb a (lower_char b) then strip_prefix_ci p' s' else None
  | String _ _, EmptyString => None
  end.

(** Every character of [s] satisfies [p]. *)
Fixpoint all_chars (p : ascii -> bool) (s : string) : bool :=
  match s with
  | EmptyString => true
  | String c s' => p c && all_chars p s'
  end.

(** [s[0]] and [s[-1]], when there is one. *)
Definition str_head (s : string) : option ascii :=
  match s with
  | EmptyString => None
  | String c _ => Some c
  end.

Fixpoint str_last (s : string) : option ascii :=
  match s with
  | EmptyString => None
  | String c s' =>
      match str_last s' with
      | Some d => Some d
      | None => Some c
      end
  end.

(** The pattern of matcher [m] matches nowhere in [s]. *)
Fixpoint no_match (m : string -> option string) (s : string) : Prop :=
  match s with
  | EmptyString => True
  | String _ s' => m s = None /\ no_match m s'
  end.

(** Every whitespace character of [s] is a space that no whitespace
    follows. *)
Fixpoint single_spaced (s : string) : Prop :=
  match s with
  | EmptyString => True
  | String c s' =>
      (isspace c = true ->
       c = " "%char
       /\ match s' with
          | EmptyString => True
          | String d _ => isspace d = false
          end)
      /\ single_spaced s'
  end.

(** A decimal digit. *)
Definition is_digit (c : ascii) : bool :=
  let n := code c in ((48 <=? n) && (n <=? 57))%N.

(** The text that [clean_phone_name] and [sanitize_filename] leave after
    collapsing and stripping: single spaces, none at either end. *)
Definition tidy (s : string) : Prop :=
  single_spaced s
  /\ (forall c, str_head s = Some c -> isspace c = false)
  /\ (forall c, str_last s = Some c -> isspace c = false).

End Py.

(** ** phone_image_scraper.py: names and URLs *)

Module Image.

Import Py.

(** The review pattern of [sanitize_filename] and [clean_phone_name]
    under [re.IGNORECASE], matched at the start of [s]: optional
    whitespace, an optional [hands-on] with optional whitespace, [review],
    optional whitespace.  No character of [hands-on] or [review] is
    whitespace, so each whitespace star can only succeed on the whole run
    of whitespace in front of it, and the optional group, once it matched,
    cannot be given up for a [review] at the same place. *)
Definition match_review_tail (s : string) : option string :=
  match strip_prefix_ci "review" s with
  | Some r => Some (skip_spaces r)
  | None => None
  end.

Definition match_review (s : string) : option string :=
  let s1 := skip_spaces s in
  match strip_prefix_ci "hands-on" s1 with
  | Some s2 =>
      match match_review_tail (skip_spaces s2) with
      | Some r => Some r
      | None => match_review_tail s1
      end
  | None => match_review_tail s1
  end.

(** An ampersand with the whitespace around it. *)
Definition match_amp (s : string) : option string :=
  match skip_spaces s with
  | String c r => if Ascii.eqb c "&" then Some (skip_spaces r) else None
  | EmptyString => None
  end.

(** A one-character class. *)
Definition match_class (p : ascii -> bool) (s : string) : option string :=
  match s with
  | String c r => if p c then Some r else None
  | EmptyString => None
  end.

(** A non-empty run of whitespace. *)
Definition match_spaces (s : string) : option string :=
  match s with
  | String c r => if isspace c then Some (skip_spaces r) else None
  | EmptyString => None
  end.

(** The characters that [sanitize_filename] replaces by an underscore;
    code 34 is the double quote. *)
Definition invalid_chars : list ascii :=
  ["<"; ">"; ":"; "034"; "/"; "\"; "|"; "?"; "*"]%char.

Definition is_invalid (c : ascii) : bool :=
  existsb (Ascii.eqb c) invalid_chars.

Definition is_dot_or_space (c : ascii) : bool :=
  Ascii.eqb c "." || Ascii.eqb c " ".

Definition sanitize_filename (filename : string) : string :=
  let filename := sub match_review " " filename in
  let filename := sub match_amp " and " filename in
  let filename := sub (match_class is_invalid) "_" filename in
  let filename := strip isspace (sub match_spaces " " filename) in
  let filename := strip is_dot_or_space filename in
  if (100 <? String.length filename)%nat then str_take 100 filename
  else filename.

(** A parenthesised text: an opening parenthesis up to the first closing
    one. *)
Fixpoint after_close (s : string) : option string :=
  match s with
  | EmptyString => None
  | String c r => if Ascii.eqb c ")" then Some r else after_close r
  end.

Definition match_parens (s : string) : option string :=
  match s with
  | String c r => if Ascii.eqb c "(" then after_close r else None
  | EmptyString => None
  end.

(** The characters [clean_phone_name] deletes: neither a word character,
    nor whitespace, nor a hyphen. *)
Definition is_special (c : ascii) : bool :=
  negb (isword c || isspace c || Ascii.eqb c "-").

(** The characters [clean_phone_name] keeps. *)
Definition plain (c : ascii) : bool := negb (is_special c).

(** A word character, a space or a hyphen. *)
Definition name_char (c : ascii) : bool :=
  isword c || Ascii.eqb c " " || Ascii.eqb c "-".

Definition brand_mappings : gmap string string :=
  list_to_map
    [("xiaomi", "Xiaomi"); ("samsung", "Samsung"); ("vivo", "vivo");
     ("oneplus", "OnePlus"); ("google", "Google"); ("apple", "Apple");
     ("iphone", "iPhone")].

Record clean_info := {
  safe_name : string;
  display_name : string;
  brand : string;
  model : string
}.

(** The local [clean_name] of [clean_phone_name]. *)
Definition clean_name_of (phone_name : string) : string :=
  let clean_name := sub match_review "" phone_name in
  let clean_name := sub match_parens "" clean_name in
  let clean_name := sub (match_class (Ascii.eqb "&")) "and" clean_name in
  let clean_name := sub (match_class is_special) "" clean_name in
  strip isspace (sub match_spaces " " clean_name).

Definition brand_of (words : list string) : string :=
  match words with
  | w :: _ =>
      match brand_mappings !! lower w with
      | Some b => b
      | None => w
      end
  | [] => "Unknown"
  end.

Definition clean_phone_name (phone_name : string) : clean_info :=
  let clean_name := clean_name_of phone_name in
  let words := split_ws clean_name in
  let brand := brand_of words in
  let model := join " " (tail words) in
  let display_name :=
    if truthy model then brand +:+ " " +:+ model else brand in
  {| safe_name := sanitize_filename clean_name;
     display_name := display_name;
     brand := brand;
     model := model |}.

(** The local [base] of [construct_pictures_url]: the URL without what
    precedes the last [gsmarena.com/] and without any [.php]. *)
Definition url_base (spec_url : string) : string :=
  let spec_url :=
    if contains "gsmarena.com/" spec_url
    then last_item (split "gsmarena.com/" spec_url)
    else spec_url in
  replace ".php" "" spec_url.

Definition construct_pictures_url (spec_url : string) : option string :=
  let base := url_base spec_url in
  match rsplit1 "-" base with
  | [phone_name; phone_id] =>
      Some ("https://www.gsmarena.com/" +:+ phone_name +:+ "-pictures-"
            +:+ phone_id +:+ ".php")
  | _ => None
  end.

(** *** The pictures page *)

(** What the code asks of a parsed pictures page.  [specs_photo_main_img]
    is the [src] attribute of the first [img] inside the
    [specs-photo-main] div: outer [None] when the div or the [img] is
    missing, inner [None] when the attribute is.  [pictures_list] is the
    [pictures-list] div: the [href] of each of its links that has one, and
    the [src] attribute of each of its [img] tags.  [page_imgs] is the
    [src] attribute of every [img] of the page. *)
Record pictures_list_div := {
  links : list string;
  list_imgs : list (option string)
}.

Record pictures_page := {
  specs_photo_main_img : option (option string);
  pictures_list : option pictures_list_div;
  page_imgs : list (option string)
}.

Definition site_root : string := "https://www.gsmarena.com/".

Definition has_image_ext (s : string) : bool :=
  contains ".jpg" s || contains ".png" s || contains ".webp" s.

Definition skip_markers : list string :=
  ["icon"; "logo"; "sprite"; "button"; "blank"].

Definition is_skipped (src : string) : bool :=
  existsb (fun skip => contains skip (lower src)) skip_markers.

(** The thumbnail branch shared by the main image and the img scan. *)
Definition full_size (img_url : string) : string :=
  if contains "/vv/bigpic/" img_url || contains "/vv/pics/" img_url
  then img_url
  else if contains "thumb" (lower img_url)
       then replace "thumb" "pics" img_url
       else img_url.

Section Discovery.

(** [urllib.parse.urljoin]. *)
Variable urljoin : string -> string -> string.

Definition find_main (page : pictures_page) (image_urls : list string)
    : list string :=
  match specs_photo_main_img page with
  | Some (Some main_img_src) =>
      if truthy main_img_src then
        let main_img_url := full_size (urljoin site_root main_img_src) in
        if bool_decide (main_img_url ∈ image_urls) then image_urls
        else image_urls ++ [main_img_url]
      else image_urls
  | _ => image_urls
  end.

(** The loop over the links of the pictures list, with its [break]. *)
Fixpoint scan_links (max_images : Z) (hrefs : list string)
    (image_urls : list string) : list string :=
  match hrefs with
  | [] => image_urls
  | href :: rest =>
      if has_image_ext href then
        let img_url := urljoin site_root href in
        if bool_decide (img_url ∈ image_urls)
        then scan_links max_images rest image_urls
        else
          let image_urls := image_urls ++ [img_url] in
          if max_images <=? Z.of_nat (length image_urls) then image_urls
          else scan_links max_images rest image_urls
      else scan_links max_images rest image_urls
  end.

(** The loop over [img] tags, with its [continue] and its [break]. *)
Fixpoint scan_imgs (max_images : Z) (img_tags : list (option string))
    (image_urls : list string) : list string :=
  match img_tags with
  | [] => image_urls
  | img :: rest =>
      let src := default EmptyString img in
      if is_skipped src then scan_imgs max_images rest image_urls
      else if truthy src && has_image_ext src then
        let img_url := full_size (urljoin site_root src) in
        if bool_decide (img_url ∈ image_urls)
        then scan_imgs max_images rest image_urls
        else
          let image_urls := image_urls ++ [img_url] in
          if max_images <=? Z.of_nat (length image_urls) then image_urls
          else scan_imgs max_images rest image_urls
      else scan_imgs max_images rest image_urls
  end.

Definition broad_img_tags (page : pictures_page) : list (option string) :=
  match pictures_list page with
  | Some pl => list_imgs pl
  | None => page_imgs page
  end.

(** The body of the [try] once the page is parsed. *)
Definition scrape_images (page : pictures_page) (max_images : Z)
    : list string :=
  let image_urls := find_main page [] in
  let image_urls :=
    match pictures_list page with
    | Some pl => scan_links max_images (links pl) image_urls
    | None => image_urls
    end in
  let image_urls :=
    if Z.of_nat (length image_urls) <=? 1
    then scan_imgs max_images (broad_img_tags page) image_urls
    else image_urls in
  slice_to max_images image_urls.





End Discovery.

(** *** Downloads *)

(** [urlparse(url).path] is a parameter; [os.path.splitext] and
    [os.path.join] are the POSIX ones. *)
Definition basename (p : string) : string := last_item (rsplit1 "/" p).

Fixpoint all_dots (s : string) : bool :=
  match s with
  | EmptyString => true
  | String c r => Ascii.eqb c "." && all_dots r
  end.

Definition splitext_ext (p : string) : string :=
  match rsplit1 "." (basename p) with
  | [stem; e] => if all_dots stem then EmptyString else String "." e
  | _ => EmptyString
  end.

Definition path_join (a b : string) : string :=
  match strip_prefix "/" b with
  | Some _ => b
  | None =>
      if negb (truthy a) then b
      else match strip_prefix "/" (String.rev a) with
           | Some _ => a +:+ b
           | None => a +:+ "/" +:+ b
           end
  end.

Definition known_exts : list string := [".jpg"; ".jpeg"; ".png"; ".webp"].

(** What a GET of an image returns: an exception raised by the request,
    or a response with its status and the chunks of its body. *)
Inductive http_result :=
| RequestFailed
| Response (status : Z) (chunks : list string).

(** [Response.raise_for_status] raises for the 4xx and 5xx statuses. *)
Definition raises_for_status (status : Z) : bool :=
  (400 <=? status) && (status <? 600).

Record manifest_entry := {
  spec_url : string;
  image_count : nat;
  image_paths : list string;
  entry_clean_info : clean_info
}.

(** An entry counts its paths and has at least one. *)
Definition entry_ok (e : manifest_entry) : Prop :=
  image_count e = length (image_paths e) /\ (1 <= image_count e)%nat.

Record batch := {
  results : gmap string manifest_entry;
  successful : nat;
  failed : nat
}.

Section Fetcher.

Context {World : Type}.
Variable urljoin : string -> string -> string.
Variable url_path : string -> string.
(** A GET of a pictures page, parsed; [None] when an exception is
    raised on the way. *)
Variable get_page : string -> World -> option pictures_page * World.
Variable get_image : string -> World -> http_result * World.

(** The state of a run: the world and the files written so far. *)
Abbreviation state := (World * gmap string string)%type.

Definition scrape_images_from_pictures_page (pictures_url : string)
    (max_images : Z) (st : state) : list string * state :=
  let '(resp, w) := get_page pictures_url st.1 in
  match resp with
  | Some page => (scrape_images urljoin page max_images, (w, st.2))
  | None => ([], (w, st.2))
  end.

Definition download_image (image_url save_path : string) (st : state)
    : bool * state :=
  let '(resp, w) := get_image image_url st.1 in
  match resp with
  | RequestFailed => (false, (w, st.2))
  | Response status chunks =>
      if raises_for_status status then (false, (w, st.2))
      else
        let files := <[save_path := String.concat "" chunks]> st.2 in
        match files !! save_path with
        | Some content =>
            ((0 <? String.length content)%nat, (w, files))
        | None => (false, (w, files))
        end
  end.

Definition slot_ext (img_url : string) : string :=
  let ext := splitext_ext (url_path img_url) in
  if negb (truthy ext) || negb (bool_decide (ext ∈ known_exts))
  then ".jpg" else ext.

Definition slot_filename (idx : nat) (img_url : string) : string :=
  let ext := slot_ext img_url in
  if (idx =? 1)%nat then "main" +:+ ext
  else "angle_" +:+ str_of_Z (Z.of_nat idx) +:+ ext.

(** The loop [for idx, img_url in enumerate(image_urls, 1)]. *)
Fixpoint download_loop (phone_dir : string) (idx : nat)
    (image_urls downloaded_paths : list string) (st : state)
    : list string * state :=
  match image_urls with
  | [] => (downloaded_paths, st)
  | img_url :: rest =>
      let save_path := path_join phone_dir (slot_filename idx img_url) in
      let '(ok, st) := download_image img_url save_path st in
      download_loop phone_dir (S idx) rest
        (if ok then downloaded_paths ++ [save_path] else downloaded_paths)
        st
  end.

Definition download_phone_images (phone_name spec_url images_dir : string)
    (max_images : Z) (st : state) : (list string * clean_info) * state :=
  let clean_info := clean_phone_name phone_name in
  match construct_pictures_url spec_url with
  | None => (([], clean_info), st)
  | Some pictures_url =>
      let '(image_urls, st) :=
        scrape_images_from_pictures_page pictures_url max_images st in
      match image_urls with
      | [] => (([], clean_info), st)
      | _ :: _ =>
          let phone_dir := path_join images_dir (safe_name clean_info) in
          let '(downloaded_paths, st) :=
            download_loop phone_dir 1 image_urls [] st in
          ((downloaded_paths, clean_info), st)
      end
  end.

(** What the loop over the phones keeps true of every entry. *)
Definition entry_of (images_dir : string) (max_images : Z)
    (phones : list (string * string)) (phone_name : string)
    (e : manifest_entry) : Prop :=
  (phone_name, spec_url e) ∈ phones
  /\ truthy (spec_url e) = true
  /\ Z.of_nat (image_count e) <= max_images
  /\ NoDup (image_paths e)
  /\ entry_clean_info e = clean_phone_name phone_name
  /\ forall p, p ∈ image_paths e ->
       exists j u,
         p = path_join
               (path_join images_dir (safe_name (clean_phone_name phone_name)))
               (slot_filename j u).

(** One round of the loop over the phones. *)
Definition process_phone (images_dir : string) (max_images : Z)
    (phone : string * string) (b : batch) (st : state) : batch * state :=
  let '(phone_name, spec_url) := phone in
  if negb (truthy spec_url) then
    ({| results := results b; successful := successful b;
        failed := S (failed b) |}, st)
  else
    let '((image_paths, clean_info), st) :=
      download_phone_images phone_name spec_url images_dir max_images st in
    match image_paths with
    | _ :: _ =>
        ({| results :=
              <[phone_name :=
                  {| spec_url := spec_url;
                     image_count := length image_paths;
                     image_paths := image_paths;
                     entry_clean_info := clean_info |}]> (results b);
            successful := S (successful b);
            failed := failed b |}, st)
    | [] =>
        ({| results := results b; successful := successful b;
            failed := S (failed b) |}, st)
    end.

Fixpoint process_loop (images_dir : string) (max_images : Z)
    (phones : list (string * string)) (b : batch) (st : state)
    : batch * state :=
  match phones with
  | [] => (b, st)
  | phone :: rest =>
      let '(b, st) := process_phone images_dir max_images phone b st in
      process_loop images_dir max_images rest b st
  end.

(** [a or b] on cells that may be missing. *)
Definition or_else (a b : option string) : option string :=
  match a with
  | Some u => if truthy u then a else b
  | None => b
  end.

(** A row of the CSV file, as [csv.DictReader] yields it: column name to
    cell. *)
Definition row_spec_url (row : gmap string string) : option string :=
  or_else (row !! "spec_url")
    (or_else (row !! "_metadata - spec_url") (row !! "review_url")).

Definition read_phone (row : gmap string string)
    : option (string * string) :=
  match row !! "phone_name", row_spec_url row with
  | Some phone_name, Some spec_url =>
      if truthy spec_url then Some (phone_name, spec_url) else None
  | _, _ => None
  end.

(** [csv_rows] is [None] when reading the file raises. *)
Definition process_phones_from_csv
    (csv_rows : option (list (gmap string string))) (images_dir : string)
    (max_phones : option Z) (max_images_per_phone start_from : Z)
    (st : state) : batch * state :=
  let empty := {| results := ∅; successful := 0; failed := 0 |} in
  match csv_rows with
  | None => (empty, st)
  | Some rows =>
      let phones := omap read_phone rows in
      let phones :=
        if 0 <? start_from then slice_from start_from phones
        else phones in
      let phones :=
        match max_phones with
        | Some m => if m =? 0 then phones else slice_to m phones
        | None => phones
        end in
      process_loop images_dir max_images_per_phone phones empty st
  end.

End Fetcher.

End Image.

(** ** phone_review_url_scraper.py *)

Module Review.

Import Py.

(** What the code asks of one review item.  A title element is given by
    its stripped text and by the [href] of its link: the element itself
    when it is an anchor, its first anchor otherwise ([None] when there is
    no link or no [href]). *)
Record title_elem := {
  title_text : string;
  title_href : option string
}.

Record review_item := {
  item_h3 : option title_elem;
  item_h2 : option title_elem;
  item_a_title : option title_elem;
  item_img : option (option string * option string);
  item_li : option string;
  item_span_date : option string;
  item_p : option string
}.

(** A parsed listing page: the three selector results and the length of
    the body. *)
Record review_page := {
  items_by_class : list review_item;
  review_body_items : option (list review_item);
  items_new : list review_item;
  content_length : Z
}.

(** What one request of the listing yields. *)
Inductive response :=
| RequestException
| OtherException
| Fetched (page : review_page).

(** A record is a dictionary whose keys are written once, in this
    order. *)
Abbreviation review_data := (list (string * string)).

Definition first_some {A} (a b : option A) : option A :=
  match a with Some _ => a | None => b end.

Section Lister.

Variable urljoin : string -> string -> string.

Definition extract_item (item : review_item) : review_data :=
  let title :=
    first_some (item_h3 item) (first_some (item_h2 item) (item_a_title item)) in
  let review_data :=
    match title with
    | Some t =>
        [("phone_name", title_text t)] ++
        match title_href t with
        | Some href =>
            if truthy href
            then [("review_url", urljoin "https://www.gsmarena.com/" href)]
            else []
        | None => []
        end
    | None => []
    end in
  let review_data :=
    match item_img item with
    | Some (src, alt) =>
        review_data ++ [("image_url", default EmptyString src);
                        ("image_alt", default EmptyString alt)]
    | None => review_data
    end in
  let review_data :=
    match first_some (item_li item) (item_span_date item) with
    | Some d => review_data ++ [("date", d)]
    | None => review_data
    end in
  match item_p item with
  | Some t => review_data ++ [("snippet", t)]
  | None => review_data
  end.

Definition select_items (page : review_page) : list review_item :=
  match items_by_class page with
  | _ :: _ => items_by_class page
  | [] =>
      let review_items :=
        match review_body_items page with
        | Some l => l
        | None => []
        end in
      match review_items with
      | _ :: _ => review_items
      | [] => items_new page
      end
  end.

Definition scrape_single_page (resp : response)
    : list review_data * bool :=
  match resp with
  | Fetched page =>
      let reviews :=
        filter (fun d => d ≠ []) (extract_item <$> select_items page) in
      (reviews, 1000 <? content_length page)
  | RequestException => ([], false)
  | OtherException => ([], false)
  end.

Definition page_url (base_url : string) (page_num : Z) : string :=
  if page_num =? 1 then base_url
  else base_url +:+ "?iPage=" +:+ str_of_Z page_num.

Definition max_consecutive_empty : Z := 3.

(** What a run returns, with what it asked for: the records, the URLs
    requested in order, and the responses of the script it did not
    use. *)
Record run := {
  all_reviews : list review_data;
  requested : list string;
  unused : list response
}.

(** The test on [max_pages] at the end of a round. *)
Definition limit_reached (max_pages : option Z) (start_page page_num : Z)
    : bool :=
  match max_pages with
  | Some m => negb (m =? 0) && (m <=? page_num - start_page + 1)
  | None => false
  end.

(** The [while True] loop.  Each round takes the next response of the
    script; [None] when the script ends before the loop does. *)
Fixpoint scrape_loop (responses : list response) (base_url : string)
    (start_page : Z) (max_pages : option Z) (page_num consecutive_empty : Z)
    (reviews_so_far : list review_data) (urls : list string)
    : option run :=
  match responses with
  | [] => None
  | resp :: rest =>
      let current_url := page_url base_url page_num in
      let urls := urls ++ [current_url] in
      let '(reviews, has_content) := scrape_single_page resp in
      let stop r := Some {| all_reviews := r; requested := urls;
                            unused := rest |} in
      let continue r ce :=
        if limit_reached max_pages start_page page_num then stop r
        else scrape_loop rest base_url start_page max_pages
               (page_num + 1) ce r urls in
      match reviews with
      | _ :: _ => continue (reviews_so_far ++ reviews) 0
      | [] =>
          let consecutive_empty := consecutive_empty + 1 in
          if negb has_content
             || (max_consecutive_empty <=? consecutive_empty)
          then stop reviews_so_far
          else continue reviews_so_far consecutive_empty
      end
  end.

Definition scrape_gsmarena_reviews (responses : list response)
    (base_url : string) (start_page : Z) (max_pages : option Z)
    : option run :=
  scrape_loop responses base_url start_page max_pages start_page 0 [] [].

(** The page limit does not end a run that starts at [start_page]
    before [n] pages are read. *)
Definition allows_pages (max_pages : option Z) (n : Z) : Prop :=
  match max_pages with
  | Some m => m = 0 \/ n <= m
  | None => True
  end.

End Lister.

(** The shape of a record: it is not empty; its keys are some of the six
    field names, in their fixed order and none twice; it has a review URL
    only with a phone name, and an image URL exactly with an image
    text. *)
Definition record_shape (d : review_data) : Prop :=
  d <> []
  /\ d.*1 `sublist_of`
       ["phone_name"; "review_url"; "image_url"; "image_alt"; "date"; "snippet"]
  /\ ("review_url" ∈ d.*1 -> "phone_name" ∈ d.*1)
  /\ ("image_url" ∈ d.*1 <-> "image_alt" ∈ d.*1).

(** *** Saving the records as CSV *)

(** [rowdict.get(key, '')] on a record. *)
Fixpoint get_cell (row : review_data) (key : string) : string :=
  match row with
  | [] => EmptyString
  | (k, v) :: rest => if String.eqb k key then v else get_cell rest key
  end.

(** What [csv.DictWriter] makes of a record: one cell per field name,
    blank where the record lacks the key; [None] when the record has a key
    that is no field name, for which the writer raises. *)
Definition dict_to_list (fieldnames : list string) (row : review_data)
    : option (list string) :=
  if forallb (fun k => bool_decide (k ∈ fieldnames)) row.*1
  then Some ((get_cell row) <$> fieldnames)
  else None.

(** [writer.writerows]: the rows in front of one that raises are
    written. *)
Fixpoint write_rows (fieldnames : list string) (rows : list review_data)
    (table : list (list string)) : bool * list (list string) :=
  match rows with
  | [] => (true, table)
  | row :: rest =>
      match dict_to_list fieldnames row with
      | Some cells => write_rows fieldnames rest (table ++ [cells])
      | None => (false, table)
      end
  end.

(** [save_to_csv], the file seen as a table: a header and rows of cells.
    [can_open] tells whether opening the file for writing succeeds.  The
    result is the value returned and the table left in the file, [None]
    when the file was not opened. *)
Definition save_to_csv (data : list review_data) (can_open : bool)
    : bool * option (list (list string)) :=
  match data with
  | [] => (false, None)
  | first :: _ =>
      if can_open then
        let keys := first.*1 in
        let '(ok, table) := write_rows keys data [keys] in
        (ok, Some table)
      else (false, None)
  end.

End Review.

(** ** phone_specs_scraper.py *)

Module Specs.

Import Py.

(** What the code asks of a parsed specification page.  A table of the
    primary scan comes with the stripped text of the nearest [th] before
    it and, for each row, the stripped texts of its [td] cells.  A table
    of the [specs-list] div comes with the text of its first [th] and, for
    each row, the texts of its [ttl] cells and of its [nfo] cells. *)
Record spec_table := {
  previous_th : option string;
  rows : list (list string)
}.

Record list_table := {
  header : option string;
  tagged_rows : list (list string * list string)
}.

Record spec_page := {
  phone_title : option string;
  spec_tables : list spec_table;
  specs_list : option (list list_table)
}.

(** A value of the [specifications] dictionary: the phone name is a
    string, a category is a dictionary of its own. *)
Inductive entry :=
| Name (s : string)
| Fields (m : gmap string string).

(** [re.sub] of a run of whitespace by one space. *)
Definition collapse (s : string) : string :=
  sub Image.match_spaces " " s.

(** [specifications[category][spec_name] = spec_value]; assigning into
    the phone name, a string, raises. *)
Definition set_field (category spec_name spec_value : string)
    (specifications : gmap string entry) : option (gmap string entry) :=
  match specifications !! category with
  | Some (Fields m) =>
      Some (<[category := Fields (<[spec_name := spec_value]> m)]>
              specifications)
  | _ => None
  end.

Fixpoint primary_rows (category : string) (rs : list (list string))
    (specifications : gmap string entry) : option (gmap string entry) :=
  match rs with
  | [] => Some specifications
  | cells :: rest =>
      match cells with
      | c0 :: c1 :: _ =>
          let spec_name := collapse c0 in
          let spec_value := collapse c1 in
          if truthy spec_name && truthy spec_value then
            match set_field category spec_name spec_value specifications with
            | Some specifications => primary_rows category rest specifications
            | None => None
            end
          else primary_rows category rest specifications
      | _ => primary_rows category rest specifications
      end
  end.

Fixpoint primary_tables (ts : list spec_table)
    (specifications : gmap string entry) : option (gmap string entry) :=
  match ts with
  | [] => Some specifications
  | table :: rest =>
      let category := default "General" (previous_th table) in
      let specifications :=
        match specifications !! category with
        | Some _ => specifications
        | None => <[category := Fields ∅]> specifications
        end in
      match primary_rows category (rows table) specifications with
      | Some specifications => primary_tables rest specifications
      | None => None
      end
  end.

(** What the title of a page puts into the result. *)
Definition title_entry (page : spec_page) : gmap string entry :=
  match phone_title page with
  | Some t => {[ "phone_name" := Name t ]}
  | None => ∅
  end.

(** The first method: the title, then every table of the page. *)
Definition primary_method (page : spec_page) : option (gmap string entry) :=
  primary_tables (spec_tables page) (title_entry page).

Fixpoint zip_fields (cells values : list string) (m : gmap string string)
    : gmap string string :=
  match cells, values with
  | spec_name :: cells, spec_value :: values =>
      zip_fields cells values
        (if truthy spec_name && truthy spec_value
         then <[spec_name := spec_value]> m else m)
  | _, _ => m
  end.

Fixpoint alternate_rows (rs : list (list string * list string))
    (m : gmap string string) : gmap string string :=
  match rs with
  | [] => m
  | (cells, values) :: rest => alternate_rows rest (zip_fields cells values m)
  end.

Fixpoint alternate_tables (ts : list list_table)
    (specifications : gmap string entry) : gmap string entry :=
  match ts with
  | [] => specifications
  | table :: rest =>
      match header table with
      | Some category =>
          alternate_tables rest
            (<[category := Fields (alternate_rows (tagged_rows table) ∅)]>
               specifications)
      | None => alternate_tables rest specifications
      end
  end.

(** The second method: the tables of the [specs-list] div. *)
Definition alternate_method (page : spec_page)
    (specifications : gmap string entry) : gmap string entry :=
  match specs_list page with
  | Some ts => alternate_tables ts specifications
  | None => specifications
  end.

(** The test in front of the second method. *)
Definition alternate_runs (specifications : gmap string entry) : bool :=
  (size specifications <=? 1)%nat.

(** [resp] is the parsed page, [None] when fetching it raises. *)
Definition scrape_specifications (resp : option spec_page)
    : option (gmap string entry) :=
  match resp with
  | None => None
  | Some page =>
      match primary_method page with
      | None => None
      | Some specifications =>
          if alternate_runs specifications
          then Some (alternate_method page specifications)
          else Some specifications
      end
  end.

(** The categories of a result: its entries that are dictionaries. *)
Definition is_category (e : entry) : Prop :=
  match e with Fields _ => True | Name _ => False end.

Global Instance is_category_dec e : Decision (is_category e).
Proof. destruct e; simpl; apply _. Defined.

Definition categories (specifications : gmap string entry)
    : gmap string entry :=
  filter (fun kv => is_category kv.2) specifications.

(** The entries of a result that are not categories. *)
Definition names (specifications : gmap string entry) : gmap string entry :=
  filter (fun kv => ~ is_category kv.2) specifications.

(** One when the page has a title. *)
Definition title_count (page : spec_page) : nat :=
  match phone_title page with
  | Some _ => 1
  | None => 0
  end.

(** The test of the first method on the cells of a row: two cells or
    more, of which the first two are not blank. *)
Definition usable (cells : list string) : bool :=
  match cells with
  | c0 :: c1 :: _ => truthy (collapse c0) && truthy (collapse c1)
  | _ => false
  end.

(** A category without an empty field name and without an empty value. *)
Definition filled (m : gmap string string) : Prop :=
  map_Forall (fun spec_name spec_value => spec_name <> "" /\ spec_value <> "") m.

Definition all_filled (specifications : gmap string entry) : Prop :=
  map_Forall (fun _ e => match e with Fields m => filled m | Name _ => True end)
    specifications.

(** *** Finding the specification page *)

(** A link of the review page that has an [href]: the attribute and the
    stripped text of the link. *)
Record link := {
  link_href : string;
  link_text : string
}.

Definition site_root : string := "https://www.gsmarena.com/".

(** The test on the lower-cased text of a link. *)
Definition mentions_specs (text : string) : bool :=
  contains "specification" text || contains "specs" text
  || contains "full phone" text.

Definition starts_with (p s : string) : bool :=
  match strip_prefix p s with
  | Some _ => true
  | None => false
  end.

(** The pattern of a specification page matched at the head of [s]: a
    hyphen, four or five digits, then [.php]. *)
Definition match_spec_id (s : string) : bool :=
  match s with
  | String "-" (String d1 (String d2 (String d3 (String d4 r)))) =>
      is_digit d1 && is_digit d2 && is_digit d3 && is_digit d4
      && (match r with
          | String d5 r' => is_digit d5 && starts_with ".php" r'
          | EmptyString => false
          end
          || starts_with ".php" r)
  | _ => false
  end.

(** [re.search] of that pattern: a match at some position. *)
Fixpoint search_spec_id (s : string) : bool :=
  match_spec_id s
  || match s with
     | String _ s' => search_spec_id s'
     | EmptyString => false
     end.

(** The test of the first loop: the text of the link names the
    specifications and its [href] holds [.php]. *)
Definition is_named (l : link) : bool :=
  mentions_specs (lower (link_text l)) && contains ".php" (link_href l).

(** The test of the second loop: the [href] has the pattern of a
    specification page and does not hold [review]. *)
Definition is_numbered (l : link) : bool :=
  search_spec_id (link_href l) && negb (contains "review" (link_href l)).

Section Finder.

(** [urljoin], with [None] where it raises: it does on an [href] that it
    cannot parse. *)
Variable urljoin : string -> string -> option string.

(** A loop over the links that stops at the first one passing a test and
    joins its [href] to the site root: [None] when no link passes,
    [Some None] when joining raises. *)
Fixpoint first_link (test : link -> bool) (links : list link)
    : option (option string) :=
  match links with
  | [] => None
  | l :: rest =>
      if test l then Some (urljoin site_root (link_href l))
      else first_link test rest
  end.

(** [resp] is the list of the links of the review page, [None] when
    fetching the page raises.  The result is [None] as well when joining
    raises: the handler returns it. *)
Definition find_spec_url_from_review (resp : option (list link))
    : option string :=
  match resp with
  | None => None
  | Some links =>
      match first_link is_named links with
      | Some None => None
      | Some (Some spec_link) =>
          if truthy spec_link then Some spec_link
          else
            match first_link is_numbered links with
            | Some found => found
            | None => Some spec_link
            end
      | None =>
          match first_link is_numbered links with
          | Some found => found
          | None => None
          end
      end
  end.

End Finder.

(** *** The batch of phones *)

(** A row of the CSV file, as [csv.DictReader] yields it: column name to
    cell, the cell being [None] where the line is shorter than the
    header. *)
Abbreviation csv_row := (gmap string (option string)).

(** A phone read from a row of the CSV file.  The name and the date are
    [None] where the cell is. *)
Record phone_info := {
  info_phone_name : option string;
  info_review_url : string;
  info_date : option string
}.

Definition read_phone (row : csv_row) : option phone_info :=
  match row !! "review_url" with
  | Some (Some review_url) =>
      if truthy review_url
      then Some {| info_phone_name :=
                     default (Some "Unknown") (row !! "phone_name");
                   info_review_url := review_url;
                   info_date := default (Some "Unknown") (row !! "date") |}
      else None
  | _ => None
  end.

(** The dictionary stored under [_metadata]. *)
Record metadata := {
  meta_phone_name : option string;
  meta_review_url : string;
  meta_spec_url : string;
  meta_date : option string
}.

(** A value of a scraped phone in the batch: an entry of the extractor,
    or the metadata. *)
Inductive value :=
| Scraped (e : entry)
| Metadata (m : metadata).

Definition metadata_of (p : phone_info) (spec_url : string) : value :=
  Metadata {| meta_phone_name := info_phone_name p;
              meta_review_url := info_review_url p;
              meta_spec_url := spec_url;
              meta_date := info_date p |}.

Section Batch.

Context {World : Type}.
Variable urljoin : string -> string -> option string.

(** The network: fetching and parsing a review page gives its links,
    fetching and parsing a specification page gives the page; [None]
    when the request raises. *)
Variable get_review_page : string -> World -> option (list link) * World.
Variable get_spec_page : string -> World -> option spec_page * World.

(** The state of a run: the network and the list that the run last gave
    to [save_to_json] for the output file, [None] as long as the run has
    not called it.  The value that [save_to_json] returns is not used. *)
Abbreviation state := (World * option (list (gmap string value)))%type.

(** One round of the loop over the phones. *)
Definition scrape_phone (p : phone_info)
    (all_specifications : list (gmap string value)) (st : state)
    : list (gmap string value) * state :=
  let '(review, w) := get_review_page (info_review_url p) st.1 in
  match find_spec_url_from_review urljoin review with
  | Some spec_url =>
      if truthy spec_url then
        let '(page, w) := get_spec_page spec_url w in
        match scrape_specifications page with
        | Some specifications =>
            if bool_decide (specifications = ∅)
            then (all_specifications, (w, st.2))
            else
              let specifications :=
                <["_metadata" := metadata_of p spec_url]>
                  (Scraped <$> specifications) in
              let all_specifications :=
                all_specifications ++ [specifications] in
              (all_specifications, (w, Some all_specifications))
        | None => (all_specifications, (w, st.2))
        end
      else (all_specifications, (w, st.2))
  | None => (all_specifications, (w, st.2))
  end.

Fixpoint scrape_loop (phone_data : list phone_info)
    (all_specifications : list (gmap string value)) (st : state)
    : list (gmap string value) * state :=
  match phone_data with
  | [] => (all_specifications, st)
  | p :: rest =>
      let '(all_specifications, st) := scrape_phone p all_specifications st in
      scrape_loop rest all_specifications st
  end.

(** [csv_rows] is [None] when reading the file raises. *)
Definition scrape_specs_from_csv
    (csv_rows : option (list csv_row))
    (max_phones : option Z) (start_from : Z) (st : state)
    : list (gmap string value) * state :=
  match csv_rows with
  | None => ([], st)
  | Some rows =>
      let phone_data := omap read_phone rows in
      let phone_data :=
        if 0 <? start_from then slice_from start_from phone_data
        else phone_data in
      let phone_data :=
        match max_phones with
        | Some m => if m =? 0 then phone_data else slice_to m phone_data
        | None => phone_data
        end in
      scrape_loop phone_data [] st
  end.

End Batch.

(** *** Flattening for the CSV file *)

(** Where the order of a dictionary matters, a scraped phone is given by
    its items in insertion order. *)
Abbreviation phone_specs := (list (string * entry)).

(** [d[key]] on the items of a dictionary. *)
Fixpoint dict_get (d : phone_specs) (key : string) : option entry :=
  match d with
  | [] => None
  | (k, v) :: rest => if String.eqb k key then Some v else dict_get rest key
  end.

Definition column_name (category spec_name : string) : string :=
  category +:+ " - " +:+ spec_name.

(** The inner loop: one column for each field of a category.  Two fields
    of one category never share a column, so that the order of the fields
    is of no account. *)
Definition flatten_category (category : string) (specs : gmap string string)
    (row : gmap string string) : gmap string string :=
  map_fold (fun spec_name spec_value row =>
              <[column_name category spec_name := spec_value]> row)
    row specs.

Fixpoint flatten_items (items : phone_specs) (row : gmap string string)
    : gmap string string :=
  match items with
  | [] => row
  | (category, specs) :: rest =>
      match specs with
      | Fields m =>
          if negb (String.eqb category "_metadata")
          then flatten_items rest (flatten_category category m row)
          else flatten_items rest row
      | Name _ => flatten_items rest row
      end
  end.

(** One round of [flatten_specs_for_csv].  Updating the row with a
    [_metadata] that is a string raises, unless the string is empty. *)
Definition flatten_phone (items : phone_specs) : option (gmap string string) :=
  match dict_get items "_metadata" with
  | Some (Fields metadata) => Some (flatten_items items metadata)
  | Some (Name s) =>
      if truthy s then None else Some (flatten_items items ∅)
  | None => Some (flatten_items items ∅)
  end.

(** [None] when a round raises. *)
Definition flatten_specs_for_csv (specs_data : list phone_specs)
    : option (list (gmap string string)) :=
  mapM flatten_phone specs_data.

(** *** Saving the specifications as CSV *)

Definition metadata_cols : list string :=
  ["phone_name"; "date"; "review_url"; "spec_url"].

(** The order of Python on strings. *)
Definition str_le (a b : string) : Prop := String.leb a b = true.

Global Instance str_le_dec a b : Decision (str_le a b).
Proof. unfold str_le. apply _. Defined.

(** The header of the file: the metadata columns that occur, then the
    other columns, sorted. *)
Definition csv_columns (flattened_data : list (gmap string string))
    : list string :=
  let all_columns : gset string := ⋃ (dom <$> flattened_data) in
  let spec_cols :=
    merge_sort str_le
      (filter (fun col => col ∉ metadata_cols) (elements all_columns)) in
  filter (fun col => col ∈ all_columns) metadata_cols ++ spec_cols.

(** What [csv.DictWriter] makes of a row: one cell per field name, blank
    where the row lacks the key; [None] when the row has a key that is no
    field name, for which the writer raises. *)
Definition dict_to_list (fieldnames : list string) (row : gmap string string)
    : option (list string) :=
  if bool_decide (dom row ⊆ list_to_set fieldnames)
  then Some ((fun key => default "" (row !! key)) <$> fieldnames)
  else None.

Fixpoint write_rows (fieldnames : list string)
    (rows : list (gmap string string)) (table : list (list string))
    : bool * list (list string) :=
  match rows with
  | [] => (true, table)
  | row :: rest =>
      match dict_to_list fieldnames row with
      | Some cells => write_rows fieldnames rest (table ++ [cells])
      | None => (false, table)
      end
  end.

(** [save_specs_to_csv], the file seen as a table: a header and rows of
    cells.  [can_open] tells whether opening the file for writing
    succeeds.  The result is the value returned and the table left in the
    file, [None] when the file was not opened. *)
Definition save_specs_to_csv (data : list phone_specs) (can_open : bool)
    : bool * option (list (list string)) :=
  match data with
  | [] => (false, None)
  | _ :: _ =>
      match flatten_specs_for_csv data with
      | None => (false, None)
      | Some [] => (false, None)
      | Some flattened_data =>
          let columns := csv_columns flattened_data in
          if can_open then
            let '(ok, table) := write_rows columns flattened_data [columns] in
            (ok, Some table)
          else (false, None)
      end
  end.

End Specs.

(** ** Example inputs *)

Module Sample.

(** A stand-in for [urljoin] on the relative paths of the examples. *)
Definition join_relative (base url : string) : string := base +:+ url.

Definition one_item : Review.review_item :=
  {| Review.item_h3 :=
       Some {| Review.title_text := "vivo X300 Pro 5G Review";
               Review.title_href := Some "vivo_x300_pro_5g-review-2900.php" |};
     Review.item_h2 := None; Review.item_a_title := None;
     Review.item_img := None; Review.item_li := None;
     Review.item_span_date := None; Review.item_p := None |}.

Definition listing_page : Review.review_page :=
  {| Review.items_by_class := [one_item];
     Review.review_body_items := None;
     Review.items_new := [];
     Review.content_length := 48000 |}.

Definition blank_page : Review.review_page :=
  {| Review.items_by_class := [];
     Review.review_body_items := None;
     Review.items_new := [];
     Review.content_length := 5200 |}.

Definition one_record : list (string * string) :=
  [("phone_name", "vivo X300 Pro 5G Review");
   ("review_url",
    "https://www.gsmarena.com/vivo_x300_pro_5g-review-2900.php")].

Definition reviews_url : string := "https://www.gsmarena.com/reviews.php3".

(** A specification page with a title, one table under the header
    [Network], and a [specs-list] div whose table is headed [Display]. *)
Definition titled_page : Specs.spec_page :=
  {| Specs.phone_title := Some "vivo X300 Pro";
     Specs.spec_tables :=
       [{| Specs.previous_th := Some "Network";
           Specs.rows := [["Technology"; "GSM / HSPA / LTE / 5G"]] |}];
     Specs.specs_list :=
       Some [{| Specs.header := Some "Display";
                Specs.tagged_rows := [(["Type"], ["LTPO AMOLED"])] |}] |}.

Definition titled_page_primary : gmap string Specs.entry :=
  {[ "phone_name" := Specs.Name "vivo X300 Pro";
     "Network" :=
       Specs.Fields {[ "Technology" := "GSM / HSPA / LTE / 5G" ]} ]}.

(** A pictures page with a main photo and a pictures list of four links:
    the main photo again, an image, a page, one more image. *)
Definition gallery : Image.pictures_page :=
  {| Image.specs_photo_main_img := Some (Some "vv/bigpic/vivo-x300-pro.jpg");
     Image.pictures_list :=
       Some {| Image.links :=
                 ["vv/bigpic/vivo-x300-pro.jpg";
                  "vv/reviewsimg/vivo-x300-pro/gal/-1.jpg";
                  "vivo_x300_pro_5g-14225.php";
                  "vv/reviewsimg/vivo-x300-pro/gal/-2.png"];
               Image.list_imgs := [] |};
     Image.page_imgs := [] |}.

(** A world for the examples: every pictures URL serves [gallery], and
    the image requests are answered from a script, in order; when the
    script is over the requests fail. *)
Definition serve_gallery (url : string) (w : list Image.http_result)
    : option Image.pictures_page * list Image.http_result :=
  (Some gallery, w).

Definition next_response (url : string) (w : list Image.http_result)
    : Image.http_result * list Image.http_result :=
  match w with
  | r :: w' => (r, w')
  | [] => (Image.RequestFailed, [])
  end.

(** A stand-in for the path of a URL: the examples have neither query
    nor fragment. *)
Definition whole_url (url : string) : string := url.

Definition vivo_name : string := "vivo X300 Pro 5G Review".
Definition vivo_spec_url : string :=
  "https://www.gsmarena.com/vivo_x300_pro_5g-14225.php".

Definition front_jpg : string :=
  "https://www.gsmarena.com/vv/bigpic/vivo-x300-pro.jpg".
Definition back_jpg : string :=
  "https://www.gsmarena.com/vv/reviewsimg/vivo-x300-pro/gal/-1.jpg".

(** Two responses: page not found, then an image. *)
Definition not_found_then_image : list Image.http_result :=
  [Image.Response 404 ["Not Found"]; Image.Response 200 ["JFIF"; "data"]].

(** One response: a choice of representations, status 300, with a body. *)
Definition multiple_choices : list Image.http_result :=
  [Image.Response 300 ["<html>choose</html>"]].

(** A script of three pages, and the run over it with a limit of two
    pages. *)
Definition three_pages : list Review.response :=
  [Review.Fetched listing_page; Review.Fetched listing_page;
   Review.Fetched blank_page].

Definition two_page_run : Review.run :=
  {| Review.all_reviews := [one_record; one_record];
     Review.requested :=
       ["https://www.gsmarena.com/reviews.php3";
        "https://www.gsmarena.com/reviews.php3?iPage=2"];
     Review.unused := [Review.Fetched blank_page] |}.

(** A script of two pages with records and three without, and the run
    over it without a limit. *)
Definition five_pages : list Review.response :=
  [Review.Fetched listing_page; Review.Fetched listing_page;
   Review.Fetched blank_page; Review.Fetched blank_page;
   Review.Fetched blank_page].

Definition five_page_run : Review.run :=
  {| Review.all_reviews := [one_record; one_record];
     Review.requested :=
       ["https://www.gsmarena.com/reviews.php3";
        "https://www.gsmarena.com/reviews.php3?iPage=2";
        "https://www.gsmarena.com/reviews.php3?iPage=3";
        "https://www.gsmarena.com/reviews.php3?iPage=4";
        "https://www.gsmarena.com/reviews.php3?iPage=5"];
     Review.unused := [] |}.

(** A scraped phone: its title, one category and its metadata. *)
Definition vivo_items : Specs.phone_specs :=
  [("phone_name", Specs.Name "vivo X300 Pro");
   ("Network", Specs.Fields {[ "Technology" := "GSM / HSPA / LTE / 5G" ]});
   ("_metadata",
    Specs.Fields {[ "phone_name" := vivo_name;
                    "review_url" :=
                      "https://www.gsmarena.com/vivo_x300_pro_5g-review-2900.php";
                    "spec_url" := vivo_spec_url;
                    "date" := "04 November 2025" ]})].

Definition no_phones : Image.batch :=
  {| Image.results := ∅; Image.successful := 0; Image.failed := 0 |}.

(** A name of 101 characters: 99 letters, a space, a letter. *)
Definition long_name : string :=
  String.concat "" (replicate 99 "a") +:+ " b".

End Sample.

(** * Properties *)

(** ** Strings *)

Section StringFacts.

Import Py.

Lemma str_app_nil_r s : s +:+ "" = s.
Proof. induction s; simpl; congruence. Qed.

Lemma str_app_assoc s1 s2 s3 : (s1 +:+ s2) +:+ s3 = s1 +:+ (s2 +:+ s3).
Proof. induction s1; simpl; congruence. Qed.

Lemma str_app_length s1 s2 :
  String.length (s1 +:+ s2) = (String.length s1 + String.length s2)%nat.
Proof. induction s1; simpl; congruence. Qed.

Lemma strip_prefix_app p t : strip_prefix p (p +:+ t) = Some t.
Proof.
  induction p as [|a p IH]; simpl; [done|].
  by rewrite Ascii.eqb_refl.
Qed.

Lemma strip_prefix_Some p s r : strip_prefix p s = Some r -> s = p +:+ r.
Proof.
  revert s. induction p as [|a p IH]; intros [|b s] H; simpl in *;
    try congruence.
  destruct (Ascii.eqb_spec a b); [|done]. subst. f_equal. auto.
Qed.

(** A prefix found in [p +:+ t] lies inside [p], or [p] is the start of
    it. *)
Lemma strip_prefix_app_inv sep p t r :
  strip_prefix sep (p +:+ t) = Some r ->
  (exists p', p = sep +:+ p' /\ r = p' +:+ t)
  \/ (exists q, sep = p +:+ q /\ strip_prefix q t = Some r).
Proof.
  revert p. induction sep as [|a sep IH]; intros p H; simpl in H.
  - left. exists p. split; [done|congruence].
  - destruct p as [|b p]; simpl in H.
    + right. by exists (String a sep).
    + destruct (Ascii.eqb_spec a b) as [->|]; [|done].
      destruct (IH _ H) as [(p' & -> & ->)|(q & -> & Hq)].
      * left. by exists p'.
      * right. by exists q.
Qed.

Lemma find_sub_eq sep s :
  find_sub sep s =
  match strip_prefix sep s with
  | Some r => Some ("", r)
  | None =>
      match s with
      | "" => None
      | String c s' =>
          match find_sub sep s' with
          | Some (b, a) => Some (String c b, a)
          | None => None
          end
      end
  end.
Proof. by destruct s. Qed.

Lemma find_sub_None_cons sep c s :
  find_sub sep (String c s) = None <->
  strip_prefix sep (String c s) = None /\ find_sub sep s = None.
Proof.
  rewrite (find_sub_eq sep (String c s)).
  destruct (strip_prefix sep (String c s)); [by split; [|intros []]|].
  destruct (find_sub sep s) as [[]|]; by split; [|intros []].
Qed.

Lemma split_fuel_None n sep s : find_sub sep s = None -> split_fuel n sep s = [s].
Proof. intros H. destruct n; simpl; by rewrite ?H. Qed.

Lemma contains_false sep s : contains sep s = false <-> find_sub sep s = None.
Proof. unfold contains. by destruct (find_sub sep s). Qed.

(** One character as a separator. *)
Lemma find_char_None c a s :
  find_sub (String c "") (String a s) = None <->
  c <> a /\ find_sub (String c "") s = None.
Proof.
  rewrite find_sub_None_cons. simpl.
  destruct (Ascii.eqb_spec c a); split; intros []; by split.
Qed.

Lemma rsplit1_None c s : find_sub (String c "") s = None -> rsplit1 c s = [s].
Proof.
  induction s as [|a s IH]; [done|].
  intros [Hne Hs]%find_char_None. simpl. rewrite (IH Hs).
  destruct (Ascii.eqb_spec a c); [congruence|done].
Qed.

Lemma rsplit1_last c s t :
  find_sub (String c "") t = None ->
  rsplit1 c (s +:+ String c t) = [s; t].
Proof.
  intros Ht. induction s as [|a s IH]; simpl.
  - rewrite (rsplit1_None _ _ Ht). by rewrite Ascii.eqb_refl.
  - by rewrite IH.
Qed.

End StringFacts.

(** ** The pictures URL *)

Section PicturesUrl.

Import Py Image.

(** No proper end of [gsmarena.com/] is also a start of it, so two
    occurrences never overlap. *)
Lemma domain_no_border p q rest :
  "gsmarena.com/" = p +:+ q -> p <> "" -> q <> "" ->
  strip_prefix q ("gsmarena.com/" +:+ rest) = None.
Proof.
  intros H Hp Hq.
  destruct p as [|c p]; [done|]. simplify_eq/=.
  repeat (destruct p as [|c p]; simplify_eq/=; [first [done|reflexivity]|]).
  destruct p; simplify_eq/=.
Qed.

Lemma find_domain p rest :
  exists b a,
    find_sub "gsmarena.com/" (p +:+ "gsmarena.com/" +:+ rest) = Some (b, a)
    /\ (a = rest
        \/ exists p', a = p' +:+ "gsmarena.com/" +:+ rest
                      /\ (String.length p' < String.length p)%nat).
Proof.
  induction p as [|c p IH].
  - exists "", rest. split; [|by left]. reflexivity.
  - rewrite find_sub_eq.
    destruct (strip_prefix "gsmarena.com/" _) as [r|] eqn:E.
    + exists "", r. split; [done|]. right.
      change (String c p +:+ "gsmarena.com/" +:+ rest)
        with (String c p +:+ ("gsmarena.com/" +:+ rest)) in E.
      apply strip_prefix_app_inv in E as [(p' & Hp & ->)|(q & Hq & Hr)].
      * exists p'. split; [done|]. rewrite Hp, str_app_length. simpl. lia.
      * destruct q as [|d q].
        -- rewrite str_app_nil_r in Hq. simpl in Hr. simplify_eq.
           exists "". split; [done|]. simpl. lia.
        -- by rewrite (domain_no_border (String c p) (String d q)) in Hr.
    + change (String c p +:+ "gsmarena.com/" +:+ rest)
        with (String c (p +:+ "gsmarena.com/" +:+ rest)).
      destruct IH as (b & a & -> & Ha). exists (String c b), a.
      split; [done|]. destruct Ha as [->|(p' & -> & ?)]; [by left|].
      right. exists p'. split; [done|]. simpl. lia.
Qed.

Lemma split_domain_last n p rest :
  (String.length p < n)%nat ->
  find_sub "gsmarena.com/" rest = None ->
  last_item (split_fuel n "gsmarena.com/" (p +:+ "gsmarena.com/" +:+ rest))
  = rest.
Proof.
  revert p. induction n as [|n IH]; intros p Hn Hrest; [lia|].
  cbn [split_fuel].
  destruct (find_domain p rest) as (b & a & -> & [->|(p' & -> & Hp')]).
  - by rewrite split_fuel_None.
  - unfold last_item in *. cbn [List.last].
    specialize (IH p' ltac:(lia) Hrest).
    destruct (split_fuel n _ _) eqn:E; [|done].
    destruct n; simpl in E; [done|]. by destruct (find_sub _ _) as [[]|].
Qed.

(** The part of a URL behind the site name. *)
Lemma strip_domain p rest :
  find_sub "gsmarena.com/" rest = None ->
  last_item (split "gsmarena.com/" (p +:+ "gsmarena.com/" +:+ rest)) = rest.
Proof.
  intros. apply split_domain_last; [|done].
  rewrite str_app_length. simpl. lia.
Qed.

(** No proper end of [.php] is also a start of it. *)
Lemma php_at_end t :
  strip_prefix ".php" t = None -> strip_prefix ".php" (t +:+ ".php") <> None ->
  t = "".
Proof.
  intros H1 H2. destruct (strip_prefix ".php" (t +:+ ".php")) as [r|] eqn:E; [|done].
  apply strip_prefix_app_inv in E as [(p' & -> & _)|(q & Hq & Hr)].
  - by rewrite strip_prefix_app in H1.
  - destruct t as [|c t]; [done|]. exfalso. simplify_eq/=.
    repeat (destruct t as [|c t]; simplify_eq/=).
Qed.

Lemma replace_php_end n t :
  (String.length t < n)%nat ->
  find_sub ".php" t = None ->
  sub_fuel n (strip_prefix ".php") "" (t +:+ ".php") = t.
Proof.
  revert n. induction t as [|c t IH]; intros n Hn Ht.
  - destruct n as [|n]; [simpl in Hn; lia|]. simpl. by destruct n.
  - apply find_sub_None_cons in Ht as [Hhead Htail].
    destruct n as [|n]; [simpl in Hn; lia|].
    change (String c t +:+ ".php") with (String c (t +:+ ".php")).
    cbn [sub_fuel].
    destruct (strip_prefix ".php" (String c (t +:+ ".php"))) eqn:E.
    + assert (String c t = "") as Hnil; [|done].
      apply php_at_end; [done|].
      change (String c t +:+ ".php") with (String c (t +:+ ".php")).
      by rewrite E.
    + f_equal. apply IH; [simpl in Hn; lia|done].
Qed.

Lemma url_base_spec prefix slug id :
  prefix = "" \/ (exists p, prefix = p +:+ "gsmarena.com/") ->
  contains "gsmarena.com/" (slug +:+ "-" +:+ id +:+ ".php") = false ->
  contains ".php" (slug +:+ "-" +:+ id) = false ->
  url_base (prefix +:+ slug +:+ "-" +:+ id +:+ ".php") = slug +:+ "-" +:+ id.
Proof.
  intros Hprefix Hdom Hphp%contains_false. unfold url_base.
  set (rest := slug +:+ "-" +:+ id +:+ ".php") in *.
  assert (rest = (slug +:+ "-" +:+ id) +:+ ".php") as Hrest.
  { unfold rest. by rewrite !str_app_assoc. }
  assert ((if contains "gsmarena.com/" (prefix +:+ rest)
           then last_item (split "gsmarena.com/" (prefix +:+ rest))
           else prefix +:+ rest) = rest) as ->.
  { destruct Hprefix as [->|[p ->]].
    - change ("" +:+ rest) with rest. by rewrite Hdom.
    - rewrite str_app_assoc. apply contains_false in Hdom.
      destruct (find_domain p rest) as (b & a & E & _).
      unfold contains. rewrite E. by apply strip_domain. }
  rewrite Hrest. unfold replace, sub. apply replace_php_end; [|done].
  rewrite !str_app_length. simpl. lia.
Qed.

(** Claim C1.  A specification-page URL is a site prefix (empty, or
    anything that ends in [gsmarena.com/]) followed by [slug-id.php],
    where the part behind the prefix holds no further [gsmarena.com/],
    [slug-id] holds no [.php], and the id holds no hyphen.  For every such
    URL [construct_pictures_url] returns
    [https://www.gsmarena.com/slug-pictures-id.php].  For every input
    whose remainder, once the site prefix and [.php] are removed, holds no
    hyphen, it returns nothing. *)
Theorem construct_pictures_url_correct :
  (forall prefix slug id : string,
      prefix = "" \/ (exists p, prefix = p +:+ "gsmarena.com/") ->
      contains "gsmarena.com/" (slug +:+ "-" +:+ id +:+ ".php") = false ->
      contains ".php" (slug +:+ "-" +:+ id) = false ->
      contains "-" id = false ->
      construct_pictures_url (prefix +:+ slug +:+ "-" +:+ id +:+ ".php")
      = Some ("https://www.gsmarena.com/" +:+ slug +:+ "-pictures-"
              +:+ id +:+ ".php"))
  /\ (forall spec_url : string,
        contains "-" (url_base spec_url) = false ->
        construct_pictures_url spec_url = None).
Proof.
  split.
  - intros prefix slug id Hprefix Hdom Hphp Hid%contains_false.
    unfold construct_pictures_url.
    rewrite (url_base_spec prefix slug id Hprefix Hdom Hphp).
    change (slug +:+ "-" +:+ id) with (slug +:+ String "-" id).
    by rewrite (rsplit1_last _ _ _ Hid).
  - intros spec_url H%contains_false. unfold construct_pictures_url.
    by rewrite (rsplit1_None _ _ H).
Qed.

Lemma construct_pictures_url_correct_witness :
  construct_pictures_url "https://www.gsmarena.com/vivo_x300_pro_5g-14225.php"
  = Some "https://www.gsmarena.com/vivo_x300_pro_5g-pictures-14225.php"
  /\ construct_pictures_url "vivo_x300_pro_5g-14225.php"
     = Some "https://www.gsmarena.com/vivo_x300_pro_5g-pictures-14225.php"
  /\ construct_pictures_url "https://www.gsmarena.com/makers.php3" = None.
Proof.
  split; [|split].
  - apply (proj1 construct_pictures_url_correct
             "https://www.gsmarena.com/" "vivo_x300_pro_5g" "14225");
      [right; by exists "https://www."|reflexivity..].
  - apply (proj1 construct_pictures_url_correct "" "vivo_x300_pro_5g" "14225");
      [by left|reflexivity..].
  - apply (proj2 construct_pictures_url_correct). reflexivity.
Defined.

End PicturesUrl.

(** ** The review lister *)

Section ReviewLister.

Import Py Review.
Variable urljoin : string -> string -> string.

Lemma round_with_records resp rest base start max_pages page_num ce acc urls :
  (scrape_single_page urljoin resp).1 <> [] ->
  scrape_loop urljoin (resp :: rest) base start max_pages page_num ce acc urls
  = if limit_reached max_pages start page_num
    then Some {| all_reviews := acc ++ (scrape_single_page urljoin resp).1;
                 requested := urls ++ [page_url base page_num];
                 unused := rest |}
    else scrape_loop urljoin rest base start max_pages (page_num + 1) 0
           (acc ++ (scrape_single_page urljoin resp).1)
           (urls ++ [page_url base page_num]).
Proof.
  intros H. cbn [scrape_loop].
  destruct (scrape_single_page urljoin resp) as [[|r rs] h]; [done|].
  reflexivity.
Qed.

Lemma round_empty resp rest base start max_pages page_num ce acc urls :
  scrape_single_page urljoin resp = ([], true) ->
  scrape_loop urljoin (resp :: rest) base start max_pages page_num ce acc urls
  = if (max_consecutive_empty <=? ce + 1)
       || limit_reached max_pages start page_num
    then Some {| all_reviews := acc;
                 requested := urls ++ [page_url base page_num];
                 unused := rest |}
    else scrape_loop urljoin rest base start max_pages (page_num + 1) (ce + 1)
           acc (urls ++ [page_url base page_num]).
Proof.
  intros H. cbn [scrape_loop]. rewrite H. cbn [negb orb].
  by destruct (max_consecutive_empty <=? ce + 1).
Qed.

Lemma limit_not_reached max_pages n k :
  allows_pages max_pages n -> k < n -> limit_reached max_pages 1 k = false.
Proof.
  destruct max_pages as [m|]; [|done]. simpl.
  intros [->|Hm] Hk; [done|].
  destruct (m =? 0); [done|]. simpl. lia.
Qed.

(** Claim C5.  A run that starts at page 1 with a page limit that allows
    six pages, whose pages 1 to 3 each yield records and whose pages 4, 5
    and 6 each yield none while their body is longer than the triviality
    threshold, makes exactly six requests, for pages 1 to 6 in order,
    leaves every later response of the script untouched, and returns the
    records of pages 1, 2 and 3 in that order. *)
Theorem three_empty_pages_stop_the_run
    (base_url : string) (max_pages : option Z)
    (p1 p2 p3 p4 p5 p6 : response) (later : list response) :
  (scrape_single_page urljoin p1).1 <> [] ->
  (scrape_single_page urljoin p2).1 <> [] ->
  (scrape_single_page urljoin p3).1 <> [] ->
  scrape_single_page urljoin p4 = ([], true) ->
  scrape_single_page urljoin p5 = ([], true) ->
  scrape_single_page urljoin p6 = ([], true) ->
  allows_pages max_pages 6 ->
  scrape_gsmarena_reviews urljoin (p1 :: p2 :: p3 :: p4 :: p5 :: p6 :: later)
    base_url 1 max_pages
  = Some {| all_reviews :=
              (scrape_single_page urljoin p1).1
              ++ (scrape_single_page urljoin p2).1
              ++ (scrape_single_page urljoin p3).1;
            requested :=
              [base_url; base_url +:+ "?iPage=2"; base_url +:+ "?iPage=3";
               base_url +:+ "?iPage=4"; base_url +:+ "?iPage=5";
               base_url +:+ "?iPage=6"];
            unused := later |}.
Proof.
  intros H1 H2 H3 H4 H5 H6 Hmax. unfold scrape_gsmarena_reviews.
  rewrite (round_with_records _ _ _ _ _ _ _ _ _ H1).
  rewrite (limit_not_reached _ 6 1 Hmax) by lia.
  rewrite (round_with_records _ _ _ _ _ _ _ _ _ H2).
  rewrite (limit_not_reached _ 6 _ Hmax) by lia.
  rewrite (round_with_records _ _ _ _ _ _ _ _ _ H3).
  rewrite (limit_not_reached _ 6 _ Hmax) by lia.
  rewrite (round_empty _ _ _ _ _ _ _ _ _ H4).
  rewrite (limit_not_reached _ 6 _ Hmax) by lia.
  rewrite (round_empty _ _ _ _ _ _ _ _ _ H5).
  rewrite (limit_not_reached _ 6 _ Hmax) by lia.
  rewrite (round_empty _ _ _ _ _ _ _ _ _ H6).
  cbn. by rewrite <- !(assoc_L (++)).
Qed.

(** Claim C2, as amended.  An exception while a page is fetched or parsed
    is caught and reported as an empty page without content.  Whatever the
    streak of empty pages, the loop ends at that page: no later page is
    requested, and the run returns the records of the earlier pages. *)
Theorem exception_ends_the_run
    (rest : list response) (base_url : string) (start_page : Z)
    (max_pages : option Z) (page_num consecutive_empty : Z)
    (reviews_so_far : list review_data) (urls : list string) :
  let stopped :=
    Some {| all_reviews := reviews_so_far;
            requested := urls ++ [page_url base_url page_num];
            unused := rest |} in
  scrape_single_page urljoin RequestException = ([], false)
  /\ scrape_single_page urljoin OtherException = ([], false)
  /\ scrape_loop urljoin (RequestException :: rest) base_url start_page
       max_pages page_num consecutive_empty reviews_so_far urls = stopped
  /\ scrape_loop urljoin (OtherException :: rest) base_url start_page
       max_pages page_num consecutive_empty reviews_so_far urls = stopped.
Proof. by repeat split. Qed.

End ReviewLister.

Lemma three_empty_pages_stop_the_run_witness :
  Review.scrape_gsmarena_reviews Sample.join_relative
    (replicate 3 (Review.Fetched Sample.listing_page)
     ++ replicate 3 (Review.Fetched Sample.blank_page)
     ++ [Review.Fetched Sample.listing_page])
    Sample.reviews_url 1 None
  = Some {| Review.all_reviews := replicate 3 Sample.one_record;
            Review.requested :=
              ["https://www.gsmarena.com/reviews.php3";
               "https://www.gsmarena.com/reviews.php3?iPage=2";
               "https://www.gsmarena.com/reviews.php3?iPage=3";
               "https://www.gsmarena.com/reviews.php3?iPage=4";
               "https://www.gsmarena.com/reviews.php3?iPage=5";
               "https://www.gsmarena.com/reviews.php3?iPage=6"];
            Review.unused := [Review.Fetched Sample.listing_page] |}.
Proof.
  apply (three_empty_pages_stop_the_run Sample.join_relative
           Sample.reviews_url None
           (Review.Fetched Sample.listing_page)
           (Review.Fetched Sample.listing_page)
           (Review.Fetched Sample.listing_page)
           (Review.Fetched Sample.blank_page)
           (Review.Fetched Sample.blank_page)
           (Review.Fetched Sample.blank_page)
           [Review.Fetched Sample.listing_page]);
    first [reflexivity | discriminate | exact I].
Defined.

(** Claim C2, as stated, fails: the second page raises, the streak of empty
    pages is one, and yet the run ends there; the third page, which holds a
    record, is never requested. *)
Lemma exception_does_not_continue :
  Review.scrape_gsmarena_reviews Sample.join_relative
    [Review.Fetched Sample.listing_page; Review.RequestException;
     Review.Fetched Sample.listing_page]
    Sample.reviews_url 1 None
  = Some {| Review.all_reviews := [Sample.one_record];
            Review.requested :=
              ["https://www.gsmarena.com/reviews.php3";
               "https://www.gsmarena.com/reviews.php3?iPage=2"];
            Review.unused := [Review.Fetched Sample.listing_page] |}.
Proof. reflexivity. Qed.

(** ** The specification extractor *)

Section SpecExtractor.

Import Py Specs.

Lemma size_split (specifications : gmap string entry) :
  size specifications
  = (size (categories specifications) + size (names specifications))%nat.
Proof.
  unfold categories, names.
  rewrite <- map_size_disj_union by apply map_disjoint_filter_complement.
  by rewrite map_filter_union_complement.
Qed.

Lemma names_insert_fields (specifications : gmap string entry) k m :
  (forall e, specifications !! k = Some e -> is_category e) ->
  names (<[k := Fields m]> specifications) = names specifications.
Proof.
  intros H. unfold names. apply map_filter_insert_not'; simpl; [tauto|].
  intros e He Hn. by apply Hn, H.
Qed.

Lemma names_set_field category spec_name spec_value
    (specifications specifications' : gmap string entry) :
  set_field category spec_name spec_value specifications
  = Some specifications' ->
  names specifications' = names specifications.
Proof.
  unfold set_field.
  destruct (specifications !! category) as [[t|m]|] eqn:E; try done.
  intros [= <-]. apply names_insert_fields. intros e He.
  rewrite E in He. by simplify_eq.
Qed.

Lemma names_primary_rows category rs
    (specifications specifications' : gmap string entry) :
  primary_rows category rs specifications = Some specifications' ->
  names specifications' = names specifications.
Proof.
  revert specifications.
  induction rs as [|cells rs IH]; intros sp H; simpl in H; [by simplify_eq|].
  destruct cells as [|c0 [|c1 cells]]; auto.
  destruct (truthy (collapse c0) && truthy (collapse c1)); auto.
  destruct (set_field _ _ _ sp) as [sp1|] eqn:E; [|done].
  rewrite (IH _ H). by eapply names_set_field.
Qed.

Lemma names_primary_tables ts
    (specifications specifications' : gmap string entry) :
  primary_tables ts specifications = Some specifications' ->
  names specifications' = names specifications.
Proof.
  revert specifications.
  induction ts as [|table ts IH]; intros sp H; simpl in H; [by simplify_eq|].
  destruct (primary_rows _ _ _) as [sp1|] eqn:E; [|done].
  rewrite (IH _ H), (names_primary_rows _ _ _ _ E).
  destruct (sp !! default "General" (previous_th table)) eqn:El; [done|].
  apply names_insert_fields. intros e He. rewrite El in He. done.
Qed.

(** After the first method the only entry that is not a category is the
    phone name, present exactly when the page has a title. *)
Lemma names_primary_method page specifications :
  primary_method page = Some specifications ->
  names specifications = title_entry page.
Proof.
  unfold primary_method. intros H%names_primary_tables. rewrite H.
  unfold title_entry, names. destruct (phone_title page).
  - apply map_filter_singleton_True. simpl. tauto.
  - apply map_filter_empty.
Qed.

(** Claim C9, as amended.  The second method runs exactly when the result
    of the first has at most one entry, the phone name counting as one:
    that is, when the categories found plus one for a page title are at
    most one.  When the first method found two or more categories its
    result is returned unchanged. *)
Theorem alternate_method_gate
    (page : spec_page) (specifications : gmap string entry) :
  primary_method page = Some specifications ->
  (alternate_runs specifications = true <->
   (size (categories specifications) + title_count page <= 1)%nat)
  /\ scrape_specifications (Some page)
     = Some (if alternate_runs specifications
             then alternate_method page specifications
             else specifications)
  /\ ((2 <= size (categories specifications))%nat ->
      scrape_specifications (Some page) = Some specifications).
Proof.
  intros H. pose proof (names_primary_method _ _ H) as Hn.
  assert (size specifications
          = (size (categories specifications) + title_count page)%nat)
    as Hsize.
  { rewrite size_split, Hn. unfold title_entry, title_count.
    destruct (phone_title page);
      by rewrite ?map_size_singleton, ?map_size_empty. }
  unfold scrape_specifications, alternate_runs. rewrite H, <- Hsize.
  split; [apply Nat.leb_le|]. split.
  - by destruct (size specifications <=? 1)%nat.
  - intros Hc. destruct (Nat.leb_spec (size specifications) 1); [lia|done].
Qed.

End SpecExtractor.

Lemma alternate_method_gate_witness :
  (Specs.alternate_runs Sample.titled_page_primary = true <->
   (size (Specs.categories Sample.titled_page_primary) + 1 <= 1)%nat)
  /\ Specs.scrape_specifications (Some Sample.titled_page)
     = Some Sample.titled_page_primary.
Proof.
  destruct (alternate_method_gate Sample.titled_page
              Sample.titled_page_primary) as (H1 & H2 & _).
  - by vm_compute.
  - split; [exact H1|]. rewrite H2. by vm_compute.
Defined.

(** Claim C9, as stated, fails: the first method finds one category on this
    page, which is at most one, and the second method does not run; the
    category [Display] that it would add is not in the result. *)
Lemma one_category_without_alternate :
  Specs.primary_method Sample.titled_page = Some Sample.titled_page_primary
  /\ size (Specs.categories Sample.titled_page_primary) = 1%nat
  /\ Specs.alternate_runs Sample.titled_page_primary = false
  /\ Specs.scrape_specifications (Some Sample.titled_page)
     = Some Sample.titled_page_primary
  /\ Specs.alternate_method Sample.titled_page Sample.titled_page_primary
       !! "Display" = Some (Specs.Fields {[ "Type" := "LTPO AMOLED" ]})
  /\ Sample.titled_page_primary !! "Display" = None.
Proof. repeat split; by vm_compute. Qed.

(** ** Image discovery *)

Section ImageDiscovery.

Import Py Image.
Variable urljoin : string -> string -> string.





End ImageDiscovery.


(** ** Downloads and the manifest *)

Section ImageFetcher.

Import Py Image.
Context {World : Type}.
Variable urljoin : string -> string -> string.
Variable url_path : string -> string.
Variable get_page : string -> World -> option pictures_page * World.
Variable get_image : string -> World -> http_result * World.

Abbreviation state := (World * gmap string string)%type.

(** What the loop over the image URLs adds to the list of paths. *)
Lemma download_loop_spec phone_dir idx image_urls downloaded (st : state) :
  exists added,
    (download_loop url_path get_image phone_dir idx image_urls downloaded st).1
    = downloaded ++ added
    /\ added `sublist_of`
         imap (fun i img_url =>
                 path_join phone_dir (slot_filename url_path (idx + i) img_url))
           image_urls.
Proof.
  revert idx downloaded st.
  induction image_urls as [|img_url rest IH]; intros idx acc st; simpl.
  { exists []. by rewrite app_nil_r. }
  destruct (download_image get_image img_url _ st) as [ok st'].
  rewrite Nat.add_0_r.
  destruct (IH (S idx) (if ok then acc ++ [path_join phone_dir
                                             (slot_filename url_path idx img_url)]
                        else acc) st') as (added & -> & Hsub).
  assert (added `sublist_of`
            imap ((fun i img_url0 =>
                     path_join phone_dir
                       (slot_filename url_path (idx + i) img_url0)) ∘ S) rest)
    as Hsub'.
  { erewrite imap_ext; [exact Hsub|]. intros i x _. simpl.
    by rewrite Nat.add_succ_r. }
  destruct ok.
  - eexists (_ :: added). rewrite <- (assoc_L (++)). split; [done|].
    by apply sublist_skip.
  - exists added. split; [done|]. by apply sublist_cons.
Qed.

(** The file name of a slot, spelled out: [main] for position 1 and
    [angle_n] for every later position n, followed by the extension of the
    URL path when that is one of the four known ones and by [.jpg]
    otherwise. *)
Lemma slot_filename_spelled (idx : nat) (img_url : string) :
  let path_ext := splitext_ext (url_path img_url) in
  let ext :=
    if bool_decide (path_ext ∈ [".jpg"; ".jpeg"; ".png"; ".webp"])
    then path_ext else ".jpg" in
  slot_filename url_path idx img_url
  = if bool_decide (idx = 1%nat) then "main" +:+ ext
    else "angle_" +:+ str_of_Z (Z.of_nat idx) +:+ ext.
Proof.
  cbv zeta. unfold slot_filename, slot_ext, known_exts.
  set (e := splitext_ext (url_path img_url)).
  assert ((if negb (truthy e)
              || negb (bool_decide (e ∈ [".jpg"; ".jpeg"; ".png"; ".webp"]))
           then ".jpg" else e)
          = (if bool_decide (e ∈ [".jpg"; ".jpeg"; ".png"; ".webp"])
             then e else ".jpg")) as ->.
  { destruct e as [|c e]; [by vm_compute|].
    cbn [truthy negb orb]. by case_bool_decide. }
  destruct (Nat.eqb_spec idx 1) as [->|Hne].
  - by rewrite (bool_decide_true (1 = 1)%nat).
  - by rewrite (bool_decide_false (idx = 1)%nat).
Qed.

(** Claim C6, as amended.  When the request for an image raises, or the
    response has a 4xx or 5xx status (the statuses for which
    [raise_for_status] raises), or the file written has length zero,
    [download_image] reports failure, the path of that slot is not added
    to the list of downloaded paths, and the loop goes on with the next
    URL at the next position.  Every phone of the batch is processed,
    whatever happened to the phones before it. *)
Theorem failed_download_is_skipped
    (phone_dir : string) (idx : nat) (img_url : string)
    (rest downloaded : list string) (st : state) :
  let save_path := path_join phone_dir (slot_filename url_path idx img_url) in
  let attempt := download_image get_image img_url save_path st in
  match (get_image img_url st.1).1 with
  | RequestFailed => True
  | Response status chunks =>
      400 <= status < 600 \/ String.concat "" chunks = ""
  end ->
  attempt.1 = false
  /\ download_loop url_path get_image phone_dir idx (img_url :: rest)
       downloaded st
     = download_loop url_path get_image phone_dir (S idx) rest downloaded
         attempt.2
  /\ (forall images_dir max_images phone phones b,
        process_loop urljoin url_path get_page get_image images_dir
          max_images (phone :: phones) b st
        = process_loop urljoin url_path get_page get_image images_dir
            max_images phones
            (process_phone urljoin url_path get_page get_image images_dir
               max_images phone b st).1
            (process_phone urljoin url_path get_page get_image images_dir
               max_images phone b st).2).
Proof.
  intros save_path attempt Hfail.
  assert (attempt.1 = false) as Hattempt.
  { subst attempt. unfold download_image.
    destruct (get_image img_url st.1) as [[|status chunks] w]; [done|].
    simpl in Hfail. unfold raises_for_status.
    destruct Hfail as [Hstatus|Hempty].
    - rewrite (proj2 (Z.leb_le 400 status)), (proj2 (Z.ltb_lt status 600));
        [done|lia..].
    - destruct (_ && _); [done|]. rewrite lookup_insert_eq, Hempty. done. }
  split_and!; [done| |].
  - cbn [download_loop]. fold save_path. fold attempt.
    destruct attempt as [ok st']. simpl in Hattempt. by subst ok.
  - intros. cbn [process_loop]. by destruct (process_phone _ _ _ _ _ _ _ _ _).
Qed.

Lemma process_phone_entries images_dir max_images phone b (st : state) :
  map_Forall (fun _ => entry_ok) (results b) ->
  map_Forall (fun _ => entry_ok)
    (results (process_phone urljoin url_path get_page get_image images_dir
                max_images phone b st).1).
Proof.
  intros Hb. unfold process_phone. destruct phone as [phone_name spec_url].
  destruct (negb (truthy spec_url)); [done|].
  destruct (download_phone_images _ _ _ _ _ _ _ _ _) as [[paths info] st'].
  destruct paths as [|path paths]; [done|]. simpl.
  apply map_Forall_insert_2; [|done]. split; simpl; lia.
Qed.

Lemma process_loop_entries images_dir max_images phones b (st : state) :
  map_Forall (fun _ => entry_ok) (results b) ->
  map_Forall (fun _ => entry_ok)
    (results (process_loop urljoin url_path get_page get_image images_dir
                max_images phones b st).1).
Proof.
  revert b st. induction phones as [|phone phones IH]; intros b st Hb; [done|].
  cbn [process_loop].
  pose proof (process_phone_entries images_dir max_images phone b st Hb) as H.
  destruct (process_phone _ _ _ _ _ _ _ _ _) as [b' st']. by apply IH.
Qed.

(** Claim C10.  In every entry of the manifest, [image_count] is the
    length of [image_paths] and is at least one.  A phone with a
    specification URL for which no image was downloaded, whether or not
    image URLs were discovered, is counted as failed and leaves the
    manifest as it was. *)
Theorem manifest_entries_hold_images :
  (forall csv_rows images_dir max_phones max_images start_from (st : state),
      map_Forall
        (fun _ e =>
           image_count e = length (image_paths e) /\ (1 <= image_count e)%nat)
        (results (process_phones_from_csv urljoin url_path get_page get_image
                    csv_rows images_dir max_phones max_images start_from
                    st).1))
  /\ (forall images_dir max_images phone_name spec_url b (st : state),
        truthy spec_url = true ->
        (download_phone_images urljoin url_path get_page get_image
           phone_name spec_url images_dir max_images st).1.1 = [] ->
        process_phone urljoin url_path get_page get_image images_dir
          max_images (phone_name, spec_url) b st
        = ({| results := results b; successful := successful b;
              failed := S (failed b) |},
           (download_phone_images urljoin url_path get_page get_image
              phone_name spec_url images_dir max_images st).2)).
Proof.
  split.
  - intros. unfold process_phones_from_csv.
    destruct csv_rows as [rows|]; [|apply map_Forall_empty].
    apply process_loop_entries, map_Forall_empty.
  - intros images_dir max_images phone_name spec_url b st Hurl Hnone.
    unfold process_phone. rewrite Hurl. simpl.
    destruct (download_phone_images _ _ _ _ _ _ _ _ _) as [[paths info] st'].
    simpl in Hnone. by subst paths.
Qed.

End ImageFetcher.

Lemma failed_download_is_skipped_witness :
  let st := (Sample.not_found_then_image, ∅) in
  (Image.download_image Sample.next_response Sample.front_jpg
     "images/vivo X300 Pro 5G/main.jpg" st).1 = false
  /\ (Image.download_loop Sample.whole_url Sample.next_response
        "images/vivo X300 Pro 5G" 1 [Sample.front_jpg; Sample.back_jpg] []
        st).1
     = ["images/vivo X300 Pro 5G/angle_2.jpg"].
Proof.
  intros st.
  destruct (failed_download_is_skipped Sample.join_relative Sample.whole_url
              Sample.serve_gallery Sample.next_response
              "images/vivo X300 Pro 5G" 1 Sample.front_jpg
              [Sample.back_jpg] [] st) as (H1 & H2 & _).
  { simpl. left. lia. }
  split; [exact H1|]. rewrite H2. by vm_compute.
Defined.

(** Claim C6, as stated, fails: status 300 is not a 2xx status, and yet the
    body is saved, the download is reported as a success and its path is
    returned. *)
Lemma status_300_is_saved :
  let st := (Sample.multiple_choices, ∅) in
  Image.raises_for_status 300 = false
  /\ (Image.download_image Sample.next_response Sample.front_jpg
        "images/vivo X300 Pro 5G/main.jpg" st).1 = true
  /\ (Image.download_loop Sample.whole_url Sample.next_response
        "images/vivo X300 Pro 5G" 1 [Sample.front_jpg] [] st).1
     = ["images/vivo X300 Pro 5G/main.jpg"].
Proof. repeat split; by vm_compute. Qed.

Lemma manifest_entries_hold_images_witness :
  let st : list Image.http_result * gmap string string := ([], ∅) in
  (Image.scrape_images_from_pictures_page Sample.join_relative
     Sample.serve_gallery
     "https://www.gsmarena.com/vivo_x300_pro_5g-pictures-14225.php" 5 st).1
  = [Sample.front_jpg; Sample.back_jpg;
     "https://www.gsmarena.com/vv/reviewsimg/vivo-x300-pro/gal/-2.png"]
  /\ Image.process_phone Sample.join_relative Sample.whole_url
       Sample.serve_gallery Sample.next_response "images" 5
       (Sample.vivo_name, Sample.vivo_spec_url) Sample.no_phones st
     = ({| Image.results := ∅; Image.successful := 0; Image.failed := 1 |}, st).
Proof.
  intros st. split; [by vm_compute|].
  rewrite (proj2 (manifest_entries_hold_images Sample.join_relative
                    Sample.whole_url Sample.serve_gallery
                    Sample.next_response)
             "images" 5 Sample.vivo_name Sample.vivo_spec_url
             Sample.no_phones st); by vm_compute.
Defined.

Example second_slot_keeps_its_name :
  Image.slot_filename Sample.whole_url 2 Sample.back_jpg = "angle_2.jpg"
  /\ Image.slot_filename Sample.whole_url 1 "vv/pics/front.webp" = "main.webp"
  /\ Image.slot_filename Sample.whole_url 3 "vv/pics/side.JPG" = "angle_3.jpg"
  /\ Image.slot_filename Sample.whole_url 12 "vv/pics/side" = "angle_12.jpg".
Proof. repeat split; by vm_compute. Qed.

(** ** Substitutions and stripping *)

Section Rewriting.

Import Py Image.

Lemma all_chars_app p s t :
  all_chars p (s +:+ t) = all_chars p s && all_chars p t.
Proof.
  induction s as [|c s IH]; simpl; [done|]. by rewrite IH, andb_assoc.
Qed.

Lemma all_chars_cons p c s :
  all_chars p (String c s) = true <-> p c = true /\ all_chars p s = true.
Proof. simpl. apply andb_true_iff. Qed.

Lemma all_chars_skip_spaces p s :
  all_chars p s = true -> all_chars p (skip_spaces s) = true.
Proof.
  induction s as [|c s IH]; [done|]. intros H. simpl.
  destruct (isspace c); [|done]. apply IH. by apply all_chars_cons in H as [_ ?].
Qed.

Lemma all_chars_lstrip q p s :
  all_chars p s = true -> all_chars p (lstrip q s) = true.
Proof.
  induction s as [|c s IH]; [done|]. intros H. simpl.
  destruct (q c); [|done]. apply IH. by apply all_chars_cons in H as [_ ?].
Qed.

Lemma all_chars_rstrip q p s :
  all_chars p s = true -> all_chars p (rstrip q s) = true.
Proof.
  induction s as [|c s IH]; [done|]. intros [Hc Hs]%all_chars_cons. simpl.
  specialize (IH Hs). destruct (rstrip q s) as [|d r].
  - destruct (q c); [done|]. simpl. by rewrite Hc.
  - apply all_chars_cons. done.
Qed.

Lemma all_chars_strip q p s :
  all_chars p s = true -> all_chars p (strip q s) = true.
Proof. intros. by apply all_chars_rstrip, all_chars_lstrip. Qed.

Lemma all_chars_take p n s :
  all_chars p s = true -> all_chars p (str_take n s) = true.
Proof.
  revert n. induction s as [|c s IH]; intros [|n] H; try done.
  apply all_chars_cons in H as [Hc Hs]. apply all_chars_cons. auto.
Qed.

Lemma skip_spaces_length s :
  (String.length (skip_spaces s) <= String.length s)%nat.
Proof.
  induction s as [|c s IH]; simpl; [lia|]. destruct (isspace c); simpl; lia.
Qed.

Lemma str_take_length n s : (String.length (str_take n s) <= n)%nat.
Proof.
  revert s. induction n as [|n IH]; intros [|c s]; simpl; try lia.
  specialize (IH s). lia.
Qed.

(** Where the pattern matches nowhere the substitution changes nothing. *)
Lemma sub_fuel_no_match n m repl s :
  no_match m s -> sub_fuel n m repl s = s.
Proof.
  revert n. induction s as [|c s IH]; intros [|n] H; try done.
  destruct H as [Hm Hs]. cbn [sub_fuel]. rewrite Hm. by rewrite IH.
Qed.

(** A property of the characters that the replacement has, and that what
    follows a match keeps, survives the substitution. *)
Lemma sub_fuel_all n m repl p s :
  (forall t r, m t = Some r -> all_chars p t = true -> all_chars p r = true) ->
  all_chars p repl = true ->
  all_chars p s = true -> all_chars p (sub_fuel n m repl s) = true.
Proof.
  intros Hm Hrepl. revert s.
  induction n as [|n IH]; intros s Hs; [done|].
  destruct s as [|c s]; [done|]. cbn [sub_fuel].
  destruct (m (String c s)) as [r|] eqn:E.
  - rewrite all_chars_app, Hrepl. simpl. apply IH. by apply (Hm _ _ E).
  - apply all_chars_cons in Hs as [Hc Hs]. apply all_chars_cons. auto.
Qed.

(** Replacing every character of a class by a text outside the class
    leaves no character of the class. *)
Lemma sub_class_none n q repl s :
  (String.length s <= n)%nat ->
  all_chars (fun c => negb (q c)) repl = true ->
  all_chars (fun c => negb (q c)) (sub_fuel n (match_class q) repl s) = true.
Proof.
  intros Hn Hrepl. revert s Hn.
  induction n as [|n IH]; intros [|c s] Hn; simpl in Hn; try done; [lia|].
  cbn [sub_fuel match_class]. destruct (q c) eqn:Hc.
  - rewrite all_chars_app, Hrepl. simpl. apply IH. lia.
  - apply all_chars_cons. rewrite Hc. split; [done|]. apply IH. lia.
Qed.

Lemma match_spaces_all p t r :
  match_spaces t = Some r -> all_chars p t = true -> all_chars p r = true.
Proof.
  destruct t as [|c t]; [done|]. simpl. destruct (isspace c); [|done].
  intros [= <-] [_ H]%all_chars_cons. by apply all_chars_skip_spaces.
Qed.

End Rewriting.

(** ** File names *)

Section FileNames.

Import Py Image.

Lemma lstrip_head q s c : str_head (lstrip q s) = Some c -> q c = false.
Proof.
  induction s as [|d s IH]; [done|]. simpl.
  destruct (q d) eqn:E; [done|]. simpl. by intros [= <-].
Qed.

Lemma rstrip_head q s c :
  str_head (rstrip q s) = Some c -> str_head s = Some c.
Proof.
  destruct s as [|d s]; [done|]. simpl.
  destruct (rstrip q s); [by destruct (q d)|done].
Qed.

Lemma take_head n s c :
  str_head (str_take n s) = Some c -> str_head s = Some c.
Proof. by destruct n, s. Qed.

Lemma strip_head q s c : str_head (strip q s) = Some c -> q c = false.
Proof. intros H%rstrip_head. by eapply lstrip_head. Qed.

Lemma sanitize_filename_valid filename :
  all_chars (fun c => negb (is_invalid c)) (sanitize_filename filename) = true.
Proof.
  unfold sanitize_filename.
  match goal with
  | |- all_chars _ (if _ then str_take _ ?x else ?x) = true =>
      assert (all_chars (fun c => negb (is_invalid c)) x = true) as H
  end.
  { do 2 apply all_chars_strip. unfold sub at 1.
    apply sub_fuel_all; [apply match_spaces_all|done|].
    unfold sub at 1. by apply sub_class_none. }
  destruct (_ <? _)%nat; [by apply all_chars_take|done].
Qed.

Lemma sanitize_filename_length filename :
  (String.length (sanitize_filename filename) <= 100)%nat.
Proof.
  unfold sanitize_filename.
  destruct (Nat.ltb_spec 100 (String.length
    (strip is_dot_or_space
       (strip isspace
          (sub match_spaces " "
             (sub (match_class is_invalid) "_"
                (sub match_amp " and " (sub match_review " " filename)))))))).
  - apply str_take_length.
  - done.
Qed.

Lemma sanitize_filename_head filename c :
  str_head (sanitize_filename filename) = Some c -> is_dot_or_space c = false.
Proof.
  unfold sanitize_filename. intros H. eapply strip_head.
  destruct (_ <? _)%nat; [by eapply take_head|done].
Qed.

(** Claim C3.  For every input the output of [sanitize_filename] holds
    none of the nine invalid characters, is at most 100 characters long and
    starts with neither a space nor a dot.  It can end with a space, which
    the claim denies: the truncation to 100 characters comes after the
    stripping, and for a name of 99 letters, a space and a letter the
    character it keeps last is the space. *)
Theorem sanitize_filename_output :
  (forall filename : string,
      all_chars (fun c => negb (is_invalid c)) (sanitize_filename filename)
      = true
      /\ (String.length (sanitize_filename filename) <= 100)%nat
      /\ (forall c, str_head (sanitize_filename filename) = Some c ->
                    c <> " "%char /\ c <> "."%char))
  /\ sanitize_filename Sample.long_name = str_take 100 Sample.long_name
  /\ str_last (sanitize_filename Sample.long_name) = Some " "%char.
Proof.
  split; [|split; by vm_compute].
  intros filename. split_and!.
  - apply sanitize_filename_valid.
  - apply sanitize_filename_length.
  - intros c H%sanitize_filename_head. unfold is_dot_or_space in H.
    apply orb_false_iff in H as [H1 H2].
    split; intros ->; by vm_compute in H1, H2.
Qed.

End FileNames.

(** ** Whitespace *)

Section Whitespace.

Import Py Image.

Lemma skip_spaces_id s :
  match s with String c _ => isspace c = false | EmptyString => True end ->
  skip_spaces s = s.
Proof. destruct s as [|c s]; [done|]. simpl. by intros ->. Qed.

Lemma skip_spaces_head s :
  match skip_spaces s with
  | String c _ => isspace c = false
  | EmptyString => True
  end.
Proof.
  induction s as [|c s IH]; [done|]. simpl.
  destruct (isspace c) eqn:E; [done|]. by simpl.
Qed.

(** Collapsing the runs of whitespace leaves single spaces. *)
Lemma collapse_head n s :
  (String.length s <= n)%nat ->
  match s with String c _ => isspace c = false | EmptyString => True end ->
  match sub_fuel n match_spaces " " s with
  | String c _ => isspace c = false
  | EmptyString => True
  end.
Proof.
  destruct s as [|c s]; [by destruct n|]. intros Hn Hc.
  destruct n as [|n]; [simpl in Hn; lia|]. simpl. by rewrite Hc.
Qed.

Lemma collapse_single_spaced n s :
  (String.length s <= n)%nat ->
  single_spaced (sub_fuel n match_spaces " " s).
Proof.
  revert s. induction n as [|n IH]; intros [|c s] Hn; simpl in Hn;
    try done; [lia|].
  cbn [sub_fuel match_spaces]. destruct (isspace c) eqn:Hc.
  - pose proof (skip_spaces_length s). pose proof (skip_spaces_head s).
    change (" " +:+ ?x) with (String " " x). split.
    + intros _. split; [done|]. apply collapse_head; [lia|done].
    + apply IH. lia.
  - split; [by rewrite Hc|]. apply IH. lia.
Qed.

Lemma single_spaced_collapse n s :
  single_spaced s -> sub_fuel n match_spaces " " s = s.
Proof.
  revert n. induction s as [|c s IH]; intros [|n] H; try done.
  destruct H as [Hc Hs]. cbn [sub_fuel match_spaces].
  destruct (isspace c); [|by rewrite IH].
  destruct Hc as [-> Hnext]; [done|].
  rewrite (skip_spaces_id s Hnext). by rewrite IH.
Qed.

Lemma single_spaced_lstrip q s : single_spaced s -> single_spaced (lstrip q s).
Proof.
  induction s as [|c s IH]; [done|]. intros H. simpl.
  destruct (q c); [|done]. apply IH, H.
Qed.

Lemma rstrip_next q s :
  match rstrip q s with
  | String d _ => str_head s = Some d
  | EmptyString => True
  end.
Proof.
  destruct s as [|c s]; [done|]. simpl.
  destruct (rstrip q s); [by destruct (q c)|done].
Qed.

Lemma single_spaced_rstrip q s : single_spaced s -> single_spaced (rstrip q s).
Proof.
  induction s as [|c s IH]; [done|]. intros [Hc Hs]. simpl.
  specialize (IH Hs). pose proof (rstrip_next q s) as Hnext.
  destruct (rstrip q s) as [|d r].
  - destruct (q c); [done|]. split; [|done]. intros H. by destruct (Hc H).
  - split; [|done]. intros H. destruct (Hc H) as [-> Hd]. split; [done|].
    destruct s as [|d' s]; [done|]. simpl in Hnext. by simplify_eq.
Qed.

Lemma lstrip_id q s :
  (forall c, str_head s = Some c -> q c = false) -> lstrip q s = s.
Proof. destruct s as [|c s]; [done|]. simpl. intros H. by rewrite H. Qed.

Lemma rstrip_cons q c s :
  rstrip q (String c s)
  = match rstrip q s with
    | EmptyString => if q c then EmptyString else String c EmptyString
    | r => String c r
    end.
Proof. done. Qed.

Lemma str_last_cons c s :
  str_last (String c s)
  = match str_last s with Some d => Some d | None => Some c end.
Proof. done. Qed.

Lemma rstrip_idem q s : rstrip q (rstrip q s) = rstrip q s.
Proof.
  induction s as [|c s IH]; [done|]. rewrite (rstrip_cons q c s).
  destruct (rstrip q s) as [|d r] eqn:E.
  - destruct (q c) eqn:Hc; [done|]. simpl. by rewrite Hc.
  - rewrite rstrip_cons. by rewrite IH.
Qed.

Lemma rstrip_last q s c : str_last (rstrip q s) = Some c -> q c = false.
Proof.
  induction s as [|d s IH]; [done|]. rewrite (rstrip_cons q d s).
  destruct (rstrip q s) as [|e r] eqn:E.
  - destruct (q d) eqn:Hd; [done|]. simpl. by intros [= <-].
  - rewrite str_last_cons.
    destruct (str_last (String e r)) as [x|] eqn:El.
    + intros [= <-]. by apply IH.
    + simpl in El. by destruct (str_last r).
Qed.

Lemma strip_idem q s : strip q (strip q s) = strip q s.
Proof.
  unfold strip. rewrite (lstrip_id q (rstrip q (lstrip q s))).
  - apply rstrip_idem.
  - intros c H%rstrip_head. by eapply lstrip_head.
Qed.

Lemma tidy_strip_collapse s : tidy (strip isspace (sub match_spaces " " s)).
Proof.
  split_and!.
  - apply single_spaced_rstrip, single_spaced_lstrip, collapse_single_spaced.
    done.
  - intros c H%rstrip_head. by eapply lstrip_head.
  - apply rstrip_last.
Qed.

Lemma tidy_fixed s : tidy s -> strip isspace (sub match_spaces " " s) = s.
Proof.
  intros (Hs & Hhead & Hlast). unfold sub.
  rewrite (single_spaced_collapse _ _ Hs). unfold strip.
  rewrite (lstrip_id _ _ Hhead). clear Hs Hhead.
  induction s as [|c s IH]; [done|]. simpl.
  destruct s as [|d s].
  - simpl. by rewrite (Hlast c).
  - rewrite IH; [done|]. intros x Hx. apply Hlast.
    cbn [str_last] in *. by rewrite Hx.
Qed.

End Whitespace.

(** ** Words *)

Section Words.

Import Py Image.

Lemma join_cons_char c w ws :
  join " " (String c w :: ws) = String c (join " " (w :: ws)).
Proof. unfold join. simpl. by destruct ws. Qed.

Lemma join_cons w v ws :
  join " " (w :: v :: ws) = w +:+ " " +:+ join " " (v :: ws).
Proof. done. Qed.

(** Splitting a tidy text at whitespace and joining the words with single
    spaces gives the text back. *)
Lemma split_go_tidy s :
  single_spaced s ->
  (forall c, str_last s = Some c -> isspace c = false) ->
  match s with
  | EmptyString => split_go s = (EmptyString, [])
  | String c _ =>
      if isspace c
      then exists w ws,
          split_go s = (EmptyString, w :: ws) /\ truthy w = true
          /\ s = " " +:+ join " " (w :: ws)
      else exists w ws,
          split_go s = (w, ws) /\ truthy w = true /\ s = join " " (w :: ws)
  end.
Proof.
  induction s as [|c s IH]; [done|]. intros [Hc Hs] Hlast.
  assert (forall x, str_last s = Some x -> isspace x = false) as Hlast'.
  { intros x Hx. apply Hlast. rewrite str_last_cons. by rewrite Hx. }
  specialize (IH Hs Hlast'). cbn [split_go].
  destruct (isspace c) eqn:Ec.
  - destruct (Hc eq_refl) as [-> Hnext]. destruct s as [|d s].
    { by rewrite (Hlast " "%char) in Ec. }
    rewrite Hnext in IH. destruct IH as (w & ws & -> & Hw & Heq).
    exists w, ws. unfold cons_word. rewrite Hw. split_and!; [done..|].
    by rewrite Heq at 1.
  - destruct s as [|d s].
    { simpl. by exists (String c ""), []. }
    destruct (isspace d) eqn:Ed.
    + destruct IH as (w & ws & -> & Hw & Heq).
      exists (String c ""), (w :: ws). split_and!; [done..|].
      rewrite Heq at 1. done.
    + destruct IH as (w & ws & -> & Hw & Heq).
      exists (String c w), ws. split_and!; [done..|].
      rewrite Heq at 1. by rewrite join_cons_char.
Qed.

Lemma split_ws_tidy s :
  tidy s ->
  match split_ws s with
  | [] => s = EmptyString
  | w :: ws => truthy w = true /\ s = join " " (w :: ws)
  end.
Proof.
  intros (Hs & Hhead & Hlast). pose proof (split_go_tidy s Hs Hlast) as H.
  unfold split_ws. destruct s as [|c s]; [by rewrite H|].
  rewrite (Hhead c eq_refl) in H. destruct H as (w & ws & -> & Hw & Heq).
  unfold cons_word. by rewrite Hw.
Qed.

Lemma split_go_words s :
  Forall (fun w => truthy w = true) (split_go s).2.
Proof.
  induction s as [|c s IH]; [by constructor|]. cbn [split_go].
  destruct (split_go s) as [w ws]. simpl in IH.
  destruct (isspace c); [|done]. simpl. unfold cons_word.
  destruct (truthy w) eqn:E; [by constructor|done].
Qed.

Lemma split_ws_words s : Forall (fun w => truthy w = true) (split_ws s).
Proof.
  pose proof (split_go_words s) as H. unfold split_ws.
  destruct (split_go s) as [w ws]. simpl in H. unfold cons_word.
  destruct (truthy w) eqn:E; [by constructor|done].
Qed.

Lemma truthy_app s t : truthy s = true -> truthy (s +:+ t) = true.
Proof. by destruct s. Qed.

Lemma truthy_join w ws : truthy w = true -> truthy (join " " (w :: ws)) = true.
Proof.
  intros Hw. destruct ws; [done|]. rewrite join_cons. by apply truthy_app.
Qed.

End Words.

(** ** Clean names *)

Section CleanNames.

Import Py Image.

Lemma all_chars_impl (p q : ascii -> bool) s :
  (forall c, p c = true -> q c = true) ->
  all_chars p s = true -> all_chars q s = true.
Proof.
  intros Hpq. induction s as [|c s IH]; [done|].
  intros [Hc Hs]%all_chars_cons. apply all_chars_cons. auto.
Qed.

Lemma sub_no_match m repl s : no_match m s -> sub m repl s = s.
Proof. apply sub_fuel_no_match. Qed.

Lemma no_match_class q s :
  all_chars (fun c => negb (q c)) s = true -> no_match (match_class q) s.
Proof.
  induction s as [|c s IH]; [done|]. intros [Hc Hs]%all_chars_cons.
  split; [|auto]. simpl. by destruct (q c).
Qed.

Lemma no_match_parens s :
  all_chars (fun c => negb (Ascii.eqb c "(")) s = true ->
  no_match match_parens s.
Proof.
  induction s as [|c s IH]; [done|]. intros [Hc Hs]%all_chars_cons.
  split; [|auto]. simpl. by destruct (Ascii.eqb c "(").
Qed.

Lemma lower_app s t : lower (s +:+ t) = lower s +:+ lower t.
Proof. induction s as [|c s IH]; simpl; congruence. Qed.

Lemma strip_prefix_ci_lower p s r :
  strip_prefix_ci p s = Some r -> strip_prefix p (lower s) = Some (lower r).
Proof.
  revert s. induction p as [|a p IH]; intros s H; simpl in H.
  - by simplify_eq.
  - destruct s as [|b s]; [done|]. simpl.
    destruct (Ascii.eqb a (lower_char b)); [auto|done].
Qed.

Lemma strip_prefix_ci_suffix p s r :
  strip_prefix_ci p s = Some r -> exists p', s = p' +:+ r.
Proof.
  revert s. induction p as [|a p IH]; intros s H; simpl in H.
  - exists "". by simplify_eq.
  - destruct s as [|b s]; [done|].
    destruct (Ascii.eqb a (lower_char b)); [|done].
    destruct (IH _ H) as [p' ->]. by exists (String b p').
Qed.

Lemma skip_spaces_suffix s : exists p, s = p +:+ skip_spaces s.
Proof.
  induction s as [|c s [p IH]]; [by exists ""|]. simpl.
  destruct (isspace c); [|by exists ""].
  exists (String c p). simpl. by rewrite <- IH.
Qed.

Lemma find_sub_suffix sep p u :
  find_sub sep u <> None -> find_sub sep (p +:+ u) <> None.
Proof.
  intros Hu. induction p as [|c p IH]; [done|].
  change (String c p +:+ u) with (String c (p +:+ u)).
  by intros [_ H]%find_sub_None_cons.
Qed.

Lemma review_tail_occurs x r :
  match_review_tail x = Some r -> find_sub "review" (lower x) <> None.
Proof.
  unfold match_review_tail.
  destruct (strip_prefix_ci "review" x) as [r'|] eqn:E; [|done].
  intros _. apply strip_prefix_ci_lower in E.
  rewrite find_sub_eq. by rewrite E.
Qed.

(** Where the review pattern matches, a [review] stands in some casing. *)
Lemma match_review_occurs t r :
  match_review t = Some r -> find_sub "review" (lower t) <> None.
Proof.
  unfold match_review. destruct (skip_spaces_suffix t) as [p1 Ht].
  assert (forall r, match_review_tail (skip_spaces t) = Some r ->
                    find_sub "review" (lower t) <> None) as Hplain.
  { intros r' H%review_tail_occurs. rewrite Ht, lower_app.
    by apply find_sub_suffix. }
  destruct (strip_prefix_ci "hands-on" (skip_spaces t)) as [s2|] eqn:E;
    [|apply Hplain].
  destruct (match_review_tail (skip_spaces s2)) as [r'|] eqn:E2;
    [|apply Hplain].
  intros _. apply review_tail_occurs in E2.
  destruct (strip_prefix_ci_suffix _ _ _ E) as [p2 Hs1].
  destruct (skip_spaces_suffix s2) as [p3 Hs2].
  rewrite Ht, Hs1, Hs2, !lower_app. by do 3 apply find_sub_suffix.
Qed.

Lemma no_match_review s :
  find_sub "review" (lower s) = None -> no_match match_review s.
Proof.
  induction s as [|c s IH]; [done|]. intros H. split.
  - destruct (match_review (String c s)) as [r|] eqn:E; [|done].
    by apply match_review_occurs in E.
  - apply IH. by apply (find_sub_None_cons _ (lower_char c)) in H as [_ ?].
Qed.

Lemma clean_name_plain phone_name :
  all_chars plain (clean_name_of phone_name) = true.
Proof.
  unfold clean_name_of. apply all_chars_strip. unfold sub at 1.
  apply sub_fuel_all; [apply match_spaces_all|done|].
  unfold sub at 1. by apply sub_class_none.
Qed.

Lemma clean_name_tidy phone_name : tidy (clean_name_of phone_name).
Proof. apply tidy_strip_collapse. Qed.

(** Cleaning a cleaned name that holds no [review] changes nothing. *)
Lemma clean_name_fixed s :
  all_chars plain s = true -> tidy s ->
  find_sub "review" (lower s) = None ->
  clean_name_of s = s.
Proof.
  intros Hplain Htidy Hreview. unfold clean_name_of.
  rewrite (sub_no_match match_review) by by apply no_match_review.
  rewrite (sub_no_match match_parens).
  2:{ apply no_match_parens. revert Hplain. apply all_chars_impl.
      intros c Hc. destruct (Ascii.eqb_spec c "("); [by subst|done]. }
  rewrite (sub_no_match (match_class (Ascii.eqb "&"))).
  2:{ apply no_match_class. revert Hplain. apply all_chars_impl.
      intros c Hc. destruct (Ascii.eqb_spec "&" c); [by subst|done]. }
  rewrite (sub_no_match (match_class is_special)).
  2:{ by apply no_match_class. }
  by apply tidy_fixed.
Qed.

(** Claim C7, as amended.  When the cleaned name is not empty, the brand
    table leaves its first word as it is, and no [review] in any casing is
    left in it, the display name is the cleaned name, cleaning the display
    name changes nothing, and [clean_phone_name] applied to the display name
    yields the same safe name. *)
Theorem clean_phone_name_idempotent (phone_name w : string) (ws : list string) :
  split_ws (clean_name_of phone_name) = w :: ws ->
  brand (clean_phone_name phone_name) = w ->
  contains "review" (lower (clean_name_of phone_name)) = false ->
  display_name (clean_phone_name phone_name) = clean_name_of phone_name
  /\ clean_name_of (display_name (clean_phone_name phone_name))
     = clean_name_of phone_name
  /\ safe_name (clean_phone_name (display_name (clean_phone_name phone_name)))
     = safe_name (clean_phone_name phone_name).
Proof.
  intros Hsplit Hbrand Hreview%contains_false.
  pose proof (clean_name_tidy phone_name) as Htidy.
  pose proof (clean_name_plain phone_name) as Hplain.
  pose proof (split_ws_tidy _ Htidy) as Hjoin.
  pose proof (split_ws_words (clean_name_of phone_name)) as Hwords.
  rewrite Hsplit in Hjoin, Hwords. destruct Hjoin as [Hw Hjoin].
  assert (display_name (clean_phone_name phone_name) = clean_name_of phone_name)
    as Hdisplay.
  { unfold clean_phone_name in *. cbn [display_name brand] in *.
    rewrite Hbrand, Hsplit. cbn [tail].
    etrans; [|symmetry; exact Hjoin].
    destruct ws as [|v ws]; [done|].
    apply Forall_cons in Hwords as [_ [Hv _]%Forall_cons].
    by rewrite (truthy_join v ws Hv). }
  assert (clean_name_of (clean_name_of phone_name) = clean_name_of phone_name)
    as Hfixed by by apply clean_name_fixed.
  rewrite Hdisplay. split_and!; [done..|].
  unfold clean_phone_name. cbn [safe_name]. by rewrite Hfixed.
Qed.

End CleanNames.

Lemma clean_phone_name_idempotent_witness :
  Image.safe_name
    (Image.clean_phone_name
       (Image.display_name (Image.clean_phone_name Sample.vivo_name)))
  = "vivo X300 Pro 5G"
  /\ Image.safe_name (Image.clean_phone_name Sample.vivo_name)
     = "vivo X300 Pro 5G".
Proof.
  destruct (clean_phone_name_idempotent Sample.vivo_name "vivo"
              ["X300"; "Pro"; "5G"]) as (_ & _ & H); [by vm_compute..|].
  rewrite H. split; by vm_compute.
Defined.

(** Claim C7, as stated, fails in three ways.  The brand table rewrites
    the first word of the display name and not that of the safe name; an
    empty name is displayed as [Unknown]; and deleting a parenthesis can
    leave a [review] that only the second application deletes. *)
Lemma clean_phone_name_not_idempotent :
  (Image.safe_name (Image.clean_phone_name "samsung Galaxy S24") = "samsung Galaxy S24"
   /\ Image.display_name (Image.clean_phone_name "samsung Galaxy S24") = "Samsung Galaxy S24"
   /\ Image.safe_name (Image.clean_phone_name "Samsung Galaxy S24") = "Samsung Galaxy S24")
  /\ (Image.safe_name (Image.clean_phone_name "") = ""
      /\ Image.display_name (Image.clean_phone_name "") = "Unknown"
      /\ Image.safe_name (Image.clean_phone_name "Unknown") = "Unknown")
  /\ (Image.safe_name (Image.clean_phone_name "a rev(x)iew b") = "a b"
      /\ Image.display_name (Image.clean_phone_name "a rev(x)iew b") = "a review b"
      /\ Image.safe_name (Image.clean_phone_name "a review b") = "ab").
Proof. repeat split; by vm_compute. Qed.

(** ** Decimal numerals *)

Section Numerals.

Import Py.

Lemma str_of_Z_inj a b : str_of_Z a = str_of_Z b -> a = b.
Proof.
  unfold str_of_Z. intros H.
  assert (forall z, NilZero.int_of_string (NilZero.string_of_int (Z.to_int z))
                    = Some (Z.to_int z)) as Hisi.
  { intros z. apply NilZero.isi; destruct z; simpl; try discriminate;
      intros [= E]; by apply (DecimalPos.Unsigned.to_uint_nonnil p). }
  apply DecimalZ.to_int_inj.
  pose proof (Hisi a) as Ha. rewrite H, Hisi in Ha. by simplify_eq.
Qed.

Lemma string_of_uint_digits d :
  all_chars is_digit (NilEmpty.string_of_uint d) = true.
Proof. induction d; simpl; by rewrite ?IHd. Qed.

Lemma str_of_nat_digits n : all_chars is_digit (str_of_Z (Z.of_nat n)) = true.
Proof.
  unfold str_of_Z. destruct (Z.of_nat n) as [|p|p] eqn:E; [done| |lia].
  simpl. unfold NilZero.string_of_uint.
  pose proof (string_of_uint_digits (Pos.to_uint p)).
  by destruct (Pos.to_uint p).
Qed.

(** Digits in front of a dot: the dot ends the digits. *)
Lemma digits_dot_split s1 s2 e1 e2 :
  all_chars is_digit s1 = true -> all_chars is_digit s2 = true ->
  s1 +:+ String "." e1 = s2 +:+ String "." e2 -> s1 = s2.
Proof.
  revert s2. induction s1 as [|c s1 IH]; intros [|d s2] H1 H2 H;
    simplify_eq/=; try done.
  apply andb_true_iff in H1 as [_ H1]. apply andb_true_iff in H2 as [_ H2].
  f_equal. by apply IH.
Qed.

End Numerals.

(** ** Files of a phone *)

Section PhoneFiles.

Import Py Image.
Context {World : Type}.
Variable urljoin : string -> string -> string.
Variable url_path : string -> string.
Variable get_page : string -> World -> option pictures_page * World.
Variable get_image : string -> World -> http_result * World.

Lemma slot_ext_dot img_url : exists e, slot_ext url_path img_url = String "." e.
Proof.
  unfold slot_ext. destruct (negb _ || negb _) eqn:E; [by eexists|].
  apply orb_false_iff in E as [_ E]. apply negb_false_iff in E.
  apply bool_decide_eq_true in E. unfold known_exts in E.
  repeat (apply elem_of_cons in E as [->|E]; [by eexists|]).
  by apply elem_of_nil in E.
Qed.

(** Two positions never share a file name. *)
Lemma slot_filename_inj i j u v :
  slot_filename url_path i u = slot_filename url_path j v -> i = j.
Proof.
  unfold slot_filename.
  destruct (slot_ext_dot u) as [e1 ->], (slot_ext_dot v) as [e2 ->].
  destruct (Nat.eqb_spec i 1) as [->|Hi], (Nat.eqb_spec j 1) as [->|Hj];
    intros H; simplify_eq/=; [done|].
  apply digits_dot_split in H; [|apply str_of_nat_digits..].
  apply str_of_Z_inj in H. lia.
Qed.

Lemma slot_filename_relative i u :
  strip_prefix "/" (slot_filename url_path i u) = None.
Proof. unfold slot_filename. by destruct (i =? 1)%nat. Qed.

Lemma path_join_inj a b b' :
  strip_prefix "/" b = None -> strip_prefix "/" b' = None ->
  path_join a b = path_join a b' -> b = b'.
Proof.
  unfold path_join. intros -> ->. destruct (negb (truthy a)); [done|].
  destruct (strip_prefix "/" (String.rev a)); intros H.
  - by apply (inj (String.append a)) in H.
  - apply (inj (String.append a)) in H. by simplify_eq/=.
Qed.

Lemma slot_path_inj phone_dir i j u v :
  path_join phone_dir (slot_filename url_path i u)
  = path_join phone_dir (slot_filename url_path j v) -> i = j.
Proof.
  intros H%path_join_inj; [|apply slot_filename_relative..].
  by eapply slot_filename_inj.
Qed.

(** A download touches no file but its own, and a success leaves a file
    that is not empty. *)
Lemma download_image_files image_url save_path (st : World * gmap string string) :
  (forall p, p <> save_path ->
             (download_image get_image image_url save_path st).2.2 !! p
             = st.2 !! p)
  /\ ((download_image get_image image_url save_path st).1 = true ->
      exists content,
        (download_image get_image image_url save_path st).2.2 !! save_path
        = Some content /\ truthy content = true).
Proof.
  unfold download_image.
  destruct (get_image image_url st.1) as [[|status chunks] w]; [done|].
  destruct (raises_for_status status); [done|].
  rewrite lookup_insert_eq. cbn [fst snd]. split.
  - intros p Hp. by rewrite lookup_insert_ne.
  - intros H. exists (String.concat "" chunks). rewrite lookup_insert_eq.
    split; [done|]. by destruct (String.concat "" chunks).
Qed.

Lemma download_loop_files phone_dir idx image_urls acc
    (st : World * gmap string string) :
  NoDup acc ->
  (forall p, p ∈ acc ->
     exists j u, (j < idx)%nat
                 /\ p = path_join phone_dir (slot_filename url_path j u)) ->
  (forall p, p ∈ acc ->
     exists content, st.2 !! p = Some content /\ truthy content = true) ->
  let out := download_loop url_path get_image phone_dir idx image_urls acc st in
  NoDup out.1
  /\ (forall p, p ∈ out.1 ->
        exists j u, p = path_join phone_dir (slot_filename url_path j u))
  /\ (forall p, p ∈ out.1 ->
        exists content, out.2.2 !! p = Some content /\ truthy content = true)
  /\ (forall p,
        (forall j u, p <> path_join phone_dir (slot_filename url_path j u)) ->
        out.2.2 !! p = st.2 !! p).
Proof.
  revert idx acc st.
  induction image_urls as [|img_url rest IH]; intros idx acc st Hnodup Hacc Hfiles.
  { simpl. split_and!; [done| |done..].
    intros p Hp. destruct (Hacc p Hp) as (j & u & _ & ->). eauto. }
  cbn [download_loop]. cbv zeta.
  set (save_path := path_join phone_dir (slot_filename url_path idx img_url)).
  pose proof (download_image_files img_url save_path st) as [Hother Hsaved].
  destruct (download_image get_image img_url save_path st) as [ok st'].
  simpl in Hother, Hsaved.
  assert (save_path ∉ acc) as Hnew.
  { intros Hin. destruct (Hacc _ Hin) as (j & u & Hj & Heq).
    apply slot_path_inj in Heq. lia. }
  assert (forall p, p ∈ acc ->
            exists content, st'.2 !! p = Some content /\ truthy content = true)
    as Hfiles'.
  { intros p Hp. rewrite Hother; [by apply Hfiles|]. by intros ->. }
  specialize (IH (S idx) (if ok then acc ++ [save_path] else acc) st').
  destruct IH as (H1 & H2 & H3 & H4).
  - destruct ok; [|done]. apply NoDup_app. split_and!; [done| |apply NoDup_singleton].
    intros p Hp ->%list_elem_of_singleton. done.
  - intros p Hp. destruct ok.
    + apply elem_of_app in Hp as [Hp| ->%list_elem_of_singleton].
      * destruct (Hacc p Hp) as (j & u & ? & ->). exists j, u. split; [lia|done].
      * exists idx, img_url. split; [lia|done].
    + destruct (Hacc p Hp) as (j & u & ? & ->). exists j, u. split; [lia|done].
  - intros p Hp. destruct ok; [|by apply Hfiles'].
    apply elem_of_app in Hp as [Hp| ->%list_elem_of_singleton];
      [by apply Hfiles'|by apply Hsaved].
  - split_and!; [done..|]. intros p Hp. rewrite (H4 p Hp). apply Hother.
    apply Hp.
Qed.

(** The loop over a list is the loop over its front, then the loop over
    its rest at the positions that follow. *)
Lemma download_loop_app phone_dir idx before after acc
    (st : World * gmap string string) :
  download_loop url_path get_image phone_dir idx (before ++ after) acc st
  = download_loop url_path get_image phone_dir (idx + length before) after
      (download_loop url_path get_image phone_dir idx before acc st).1
      (download_loop url_path get_image phone_dir idx before acc st).2.
Proof.
  revert idx acc st. induction before as [|u before IH]; intros idx acc st.
  { simpl. by rewrite Nat.add_0_r. }
  cbn [app download_loop length]. cbv zeta.
  destruct (download_image get_image u _ st) as [ok st'].
  rewrite IH. by rewrite Nat.add_succ_r.
Qed.

(** The loop from a position on leaves the files of the earlier positions
    as they are. *)
Lemma download_loop_keeps phone_dir idx image_urls acc
    (st : World * gmap string string) p :
  (forall j u, (idx <= j)%nat ->
               p <> path_join phone_dir (slot_filename url_path j u)) ->
  (download_loop url_path get_image phone_dir idx image_urls acc st).2.2 !! p
  = st.2 !! p.
Proof.
  revert idx acc st. induction image_urls as [|u rest IH]; intros idx acc st Hp;
    [done|].
  cbn [download_loop]. cbv zeta.
  pose proof (download_image_files u
                (path_join phone_dir (slot_filename url_path idx u)) st)
    as [Hother _].
  destruct (download_image get_image u _ st) as [ok st']. simpl in Hother.
  rewrite IH; [apply Hother, Hp; lia|].
  intros j v Hj. apply Hp. lia.
Qed.

(** The paths that the loop adds are paths of its own positions. *)
Lemma download_loop_positions phone_dir idx image_urls acc
    (st : World * gmap string string) p :
  p ∈ (download_loop url_path get_image phone_dir idx image_urls acc st).1 ->
  p ∈ acc
  \/ exists i u, image_urls !! i = Some u
                 /\ p = path_join phone_dir
                          (slot_filename url_path (idx + i) u).
Proof.
  destruct (download_loop_spec url_path get_image phone_dir idx image_urls acc st)
    as (added & -> & Hsub).
  intros [?|Hp]%elem_of_app; [by left|]. right.
  eapply elem_of_sublist in Hp; [|exact Hsub].
  apply elem_of_lookup_imap in Hp as (i & u & -> & ?). by exists i, u.
Qed.

(** Claim C8.  Whatever happened to the URLs in front of it, the URL at
    position n of the discovered list, counted from 1, is downloaded to
    the file of that position: [main] for position 1 and [angle_n] for
    every later position n, followed by the extension of the URL path
    when that is one of the four known ones and by [.jpg] otherwise.  The
    path of that file is among the paths returned exactly when this
    download succeeds, the loop leaves the file as this download left it,
    and the paths returned follow the order of the positions. *)
Theorem filenames_are_positional
    (phone_dir : string) (before : list string) (img_url : string)
    (after : list string) (st : World * gmap string string) :
  let n := S (length before) in
  let path_ext := splitext_ext (url_path img_url) in
  let ext :=
    if bool_decide (path_ext ∈ [".jpg"; ".jpeg"; ".png"; ".webp"])
    then path_ext else ".jpg" in
  let filename :=
    if bool_decide (n = 1%nat) then "main" +:+ ext
    else "angle_" +:+ str_of_Z (Z.of_nat n) +:+ ext in
  let save_path := path_join phone_dir filename in
  let earlier := download_loop url_path get_image phone_dir 1 before [] st in
  let round := download_image get_image img_url save_path earlier.2 in
  let out :=
    download_loop url_path get_image phone_dir 1 (before ++ img_url :: after)
      [] st in
  out = download_loop url_path get_image phone_dir (S n) after
          (if round.1 then earlier.1 ++ [save_path] else earlier.1) round.2
  /\ (save_path ∈ out.1 <-> round.1 = true)
  /\ out.2.2 !! save_path = round.2.2 !! save_path
  /\ out.1 `sublist_of`
       imap (fun i u => path_join phone_dir (slot_filename url_path (S i) u))
         (before ++ img_url :: after).
Proof.
  intros n path_ext ext filename save_path earlier round out.
  assert (save_path = path_join phone_dir (slot_filename url_path n img_url))
    as Hpath.
  { subst save_path filename ext path_ext.
    by rewrite (slot_filename_spelled url_path n img_url). }
  assert (out = download_loop url_path get_image phone_dir (S n) after
                  (if round.1 then earlier.1 ++ [save_path] else earlier.1)
                  round.2) as Hout.
  { subst out. rewrite download_loop_app. fold earlier.
    cbn [download_loop]. cbv zeta.
    change (1 + length before)%nat with n. rewrite <- Hpath. fold round.
    by destruct round as [ok st']. }
  assert (save_path ∉ earlier.1) as Hearlier.
  { intros Hin. subst earlier.
    apply download_loop_positions in Hin as [Hin|(i & u & Hi & Heq)];
      [by apply elem_of_nil in Hin|].
    apply lookup_lt_Some in Hi. rewrite Hpath in Heq.
    apply slot_path_inj in Heq. subst n. lia. }
  split_and!.
  - done.
  - rewrite Hout. split.
    + intros Hin.
      apply download_loop_positions in Hin as [Hin|(i & u & _ & Heq)].
      * destruct round.1; [done|]. by destruct Hearlier.
      * rewrite Hpath in Heq. apply slot_path_inj in Heq. lia.
    + intros Hok. rewrite Hok.
      destruct (download_loop_spec url_path get_image phone_dir (S n) after
                  (earlier.1 ++ [save_path]) round.2) as (added & -> & _).
      apply elem_of_app. left. apply elem_of_app. right. by left.
  - rewrite Hout. apply download_loop_keeps.
    intros j u Hj Heq. rewrite Hpath in Heq. apply slot_path_inj in Heq. lia.
  - subst out.
    destruct (download_loop_spec url_path get_image phone_dir 1
                (before ++ img_url :: after) [] st) as (added & -> & Hsub).
    done.
Qed.

(** The paths that the download loop of a phone returns are distinct, each
    is the path of a slot of the phone directory, and when the loop ends
    each names a file that is not empty.  There are no more paths than
    URLs, and no file is touched that is not the file of a slot. *)
Theorem downloaded_files_are_distinct_and_filled
    (phone_dir : string) (image_urls : list string)
    (st : World * gmap string string) :
  let out := download_loop url_path get_image phone_dir 1 image_urls [] st in
  NoDup out.1
  /\ (length out.1 <= length image_urls)%nat
  /\ (forall p, p ∈ out.1 ->
        (exists j u, p = path_join phone_dir (slot_filename url_path j u))
        /\ exists content, out.2.2 !! p = Some content /\ content <> "")
  /\ (forall p,
        (forall j u, p <> path_join phone_dir (slot_filename url_path j u)) ->
        out.2.2 !! p = st.2 !! p).
Proof.
  intros out.
  destruct (download_loop_files phone_dir 1 image_urls [] st)
    as (H1 & H2 & H3 & H4); [apply NoDup_nil_2|by intros p ?%elem_of_nil..|].
  fold out in H1, H2, H3, H4. split_and!; [done| | |done].
  - destruct (download_loop_spec url_path get_image phone_dir 1 image_urls [] st)
      as (added & Hadded & Hsub).
    fold out in Hadded. rewrite Hadded. simpl.
    apply sublist_length in Hsub. by rewrite length_imap in Hsub.
  - intros p Hp. split; [by apply H2|].
    destruct (H3 p Hp) as (content & ? & Ht). exists content. split; [done|].
    by intros ->.
Qed.

End PhoneFiles.

Lemma filenames_are_positional_witness :
  let st := (Sample.not_found_then_image, ∅) in
  (Image.download_image Sample.next_response Sample.front_jpg
     "images/vivo X300 Pro 5G/main.jpg" st).1 = false
  /\ "images/vivo X300 Pro 5G/angle_2.jpg"
     ∈ (Image.download_loop Sample.whole_url Sample.next_response
          "images/vivo X300 Pro 5G" 1 [Sample.front_jpg; Sample.back_jpg] []
          st).1.
Proof.
  intros st. split; [reflexivity|].
  destruct (filenames_are_positional Sample.whole_url Sample.next_response
              "images/vivo X300 Pro 5G" [Sample.front_jpg] Sample.back_jpg []
              st) as (_ & H & _).
  apply H. reflexivity.
Defined.

(** ** The batch of phones *)

Section Batch.

Import Py Image.
Context {World : Type}.
Variable urljoin : string -> string -> string.
Variable url_path : string -> string.
Variable get_page : string -> World -> option pictures_page * World.
Variable get_image : string -> World -> http_result * World.

Lemma scrape_images_length page max_images :
  0 <= max_images ->
  Z.of_nat (length (scrape_images urljoin page max_images)) <= max_images.
Proof.
  intros H. unfold scrape_images, slice_to.
  rewrite (proj2 (Z.leb_le 0 max_images) H), length_take. lia.
Qed.

(** What [download_phone_images] returns for a phone. *)
Lemma download_phone_images_paths phone_name spec_url images_dir max_images
    (st : World * gmap string string) :
  0 <= max_images ->
  let out := download_phone_images urljoin url_path get_page get_image
               phone_name spec_url images_dir max_images st in
  out.1.2 = clean_phone_name phone_name
  /\ NoDup out.1.1
  /\ Z.of_nat (length out.1.1) <= max_images
  /\ (forall p, p ∈ out.1.1 ->
        exists j u,
          p = path_join
                (path_join images_dir (safe_name (clean_phone_name phone_name)))
                (slot_filename url_path j u)).
Proof.
  intros Hmax. unfold download_phone_images.
  destruct (construct_pictures_url spec_url) as [pictures_url|];
    [|simpl; split_and!; [done|apply NoDup_nil_2|done|by intros p ?%elem_of_nil]].
  unfold scrape_images_from_pictures_page.
  destruct (get_page pictures_url st.1) as [[page|] w];
    [|simpl; split_and!; [done|apply NoDup_nil_2|done|by intros p ?%elem_of_nil]].
  pose proof (scrape_images_length page max_images Hmax) as Hlen.
  destruct (scrape_images urljoin page max_images) as [|u0 urls] eqn:E;
    [simpl; split_and!; [done|apply NoDup_nil_2|done|by intros p ?%elem_of_nil]|].
  set (phone_dir := path_join images_dir (safe_name (clean_phone_name phone_name))).
  destruct (download_loop_files url_path get_image phone_dir 1 (u0 :: urls) []
              (w, st.2)) as (H1 & H3 & _ & _);
    [apply NoDup_nil_2|by intros p ?%elem_of_nil..|].
  destruct (download_loop_spec url_path get_image phone_dir 1 (u0 :: urls) []
              (w, st.2)) as (added & Hadded & Hsub).
  apply sublist_length in Hsub. rewrite length_imap in Hsub.
  destruct (download_loop url_path get_image phone_dir 1 (u0 :: urls) [] (w, st.2))
    as [paths st'].
  simpl in *. subst paths. split_and!; [done..|lia|done].
Qed.

Lemma process_loop_entry_of images_dir max_images all_phones phones b
    (st : World * gmap string string) :
  0 <= max_images ->
  (forall ph, ph ∈ phones -> ph ∈ all_phones) ->
  map_Forall (entry_of url_path images_dir max_images all_phones) (results b) ->
  map_Forall (entry_of url_path images_dir max_images all_phones)
    (results (process_loop urljoin url_path get_page get_image images_dir
                max_images phones b st).1).
Proof.
  intros Hmax. revert b st.
  induction phones as [|[phone_name url] phones IH]; intros b st Hin Hb; [done|].
  cbn [process_loop].
  assert (map_Forall (entry_of url_path images_dir max_images all_phones)
            (results (process_phone urljoin url_path get_page get_image
                        images_dir max_images (phone_name, url) b st).1)) as H.
  { unfold process_phone. destruct (negb (truthy url)) eqn:Eurl; [done|].
    pose proof (download_phone_images_paths phone_name url images_dir
                  max_images st Hmax) as (H1 & H2 & H3 & H4).
    destruct (download_phone_images _ _ _ _ _ _ _ _ _) as [[paths info] st'].
    simpl in *. destruct paths as [|path paths]; [done|]. simpl.
    apply map_Forall_insert_2; [|done].
    split_and!; simpl; [apply Hin; by left|by destruct (truthy url)|done..]. }
  destruct (process_phone _ _ _ _ _ _ _ _ _) as [b' st'].
  apply IH; [|done]. intros ph Hph. apply Hin. by right.
Qed.

(** Every entry of the manifest belongs to a phone that was read from the
    CSV rows and is keyed by its name.  When the maximum is not negative,
    the entry holds at most that many paths, no path twice, each the path
    of a slot in the directory named after the safe name of the phone, and
    its clean info is that of the phone name. *)
Theorem manifest_entries_are_bounded
    (rows : list (gmap string string)) (images_dir : string)
    (max_phones : option Z) (max_images start_from : Z)
    (st : World * gmap string string) :
  0 <= max_images ->
  map_Forall
    (fun phone_name e =>
       (exists row, row ∈ rows /\ row !! "phone_name" = Some phone_name
                    /\ row_spec_url row = Some (spec_url e))
       /\ Z.of_nat (image_count e) <= max_images
       /\ NoDup (image_paths e)
       /\ entry_clean_info e = clean_phone_name phone_name
       /\ forall p, p ∈ image_paths e ->
            exists j u,
              p = path_join
                    (path_join images_dir
                       (safe_name (clean_phone_name phone_name)))
                    (slot_filename url_path j u))
    (results (process_phones_from_csv urljoin url_path get_page get_image
                (Some rows) images_dir max_phones max_images start_from st).1).
Proof.
  intros Hmax. unfold process_phones_from_csv.
  match goal with
  | |- map_Forall _ (results (process_loop _ _ _ _ _ _ ?phones _ _).1) =>
      set (selected := phones)
  end.
  assert (forall ph, ph ∈ selected -> ph ∈ omap read_phone rows) as Hsel.
  { intros ph. subst selected. intros Hph.
    assert (forall (l : list (string * string)) n, ph ∈ slice_to n l -> ph ∈ l)
      as Hto.
    { intros l n. unfold slice_to.
      destruct (0 <=? n); intros H; by eapply elem_of_sublist, sublist_take. }
    assert (forall (l : list (string * string)) n, ph ∈ slice_from n l -> ph ∈ l)
      as Hfrom.
    { intros l n. unfold slice_from.
      destruct (0 <=? n); intros H; by eapply elem_of_sublist, sublist_drop. }
    destruct max_phones as [m|]; [destruct (m =? 0)|];
      destruct (0 <? start_from); eauto. }
  pose proof (process_loop_entry_of images_dir max_images
                (omap read_phone rows) selected
                {| results := ∅; successful := 0; failed := 0 |} st Hmax Hsel)
    as H.
  eapply map_Forall_impl; [apply H, map_Forall_empty|].
  intros phone_name e (Hin & Hurl & Hrest). split; [|done].
  apply list_elem_of_omap in Hin as (row & Hrow & Hread).
  exists row. split; [done|]. unfold read_phone in Hread.
  destruct (row !! "phone_name") as [n|]; [|done].
  destruct (row_spec_url row) as [u|]; [|done].
  destruct (truthy u); by simplify_eq.
Qed.

End Batch.

(** ** The fields of a clean name *)

Section NameFields.

Import Py Image.

Lemma all_chars_suffix p s t :
  all_chars p (s +:+ t) = true -> all_chars p t = true.
Proof. rewrite all_chars_app. by intros [_ ?]%andb_true_iff. Qed.

Lemma match_review_tail_suffix t r :
  match_review_tail t = Some r -> exists p, t = p +:+ r.
Proof.
  unfold match_review_tail.
  destruct (strip_prefix_ci "review" t) as [r'|] eqn:E; [|done].
  intros [= <-]. destruct (strip_prefix_ci_suffix _ _ _ E) as [p1 ->].
  destruct (skip_spaces_suffix r') as [p2 Hp2].
  exists (p1 +:+ p2). by rewrite str_app_assoc, <- Hp2.
Qed.

Lemma match_review_suffix t r :
  match_review t = Some r -> exists p, t = p +:+ r.
Proof.
  unfold match_review. destruct (skip_spaces_suffix t) as [p1 Ht].
  assert (forall r, match_review_tail (skip_spaces t) = Some r ->
                    exists p, t = p +:+ r) as Hplain.
  { intros r' [p2 H]%match_review_tail_suffix. exists (p1 +:+ p2).
    by rewrite str_app_assoc, <- H. }
  destruct (strip_prefix_ci "hands-on" (skip_spaces t)) as [s2|] eqn:E;
    [|apply Hplain].
  destruct (match_review_tail (skip_spaces s2)) as [r'|] eqn:E2;
    [|apply Hplain].
  intros [= <-]. apply match_review_tail_suffix in E2 as [p4 E2].
  destruct (strip_prefix_ci_suffix _ _ _ E) as [p2 Hs1].
  destruct (skip_spaces_suffix s2) as [p3 Hs2].
  exists (p1 +:+ p2 +:+ p3 +:+ p4).
  by rewrite !str_app_assoc, <- E2, <- Hs2, <- Hs1.
Qed.

Lemma match_amp_suffix t r : match_amp t = Some r -> exists p, t = p +:+ r.
Proof.
  unfold match_amp. destruct (skip_spaces_suffix t) as [p1 Ht].
  destruct (skip_spaces t) as [|c r'] eqn:E; [done|].
  destruct (Ascii.eqb c "&"); [|done]. intros [= <-].
  destruct (skip_spaces_suffix r') as [p2 Hp2].
  exists (p1 +:+ String c p2). rewrite str_app_assoc. simpl.
  by rewrite <- Hp2.
Qed.

Lemma match_class_suffix q t r :
  match_class q t = Some r -> exists p, t = p +:+ r.
Proof.
  destruct t as [|c t]; [done|]. simpl. destruct (q c); [|done].
  intros [= <-]. by exists (String c "").
Qed.

Lemma sub_keeps (p : ascii -> bool) m repl s :
  (forall t r, m t = Some r -> exists q, t = q +:+ r) ->
  all_chars p repl = true -> all_chars p s = true ->
  all_chars p (sub m repl s) = true.
Proof.
  intros Hm Hrepl Hs. apply sub_fuel_all; [|done..].
  intros t r [q ->]%Hm. apply all_chars_suffix.
Qed.

(** [sanitize_filename] brings in no character but the space, the letters
    of [and] and the underscore. *)
Lemma sanitize_filename_keeps (p : ascii -> bool) s :
  p " "%char = true -> p "_"%char = true -> all_chars p "and" = true ->
  all_chars p s = true -> all_chars p (sanitize_filename s) = true.
Proof.
  intros Hsp Hus Hand Hs. unfold sanitize_filename.
  match goal with
  | |- all_chars _ (if _ then str_take _ ?x else ?x) = true =>
      assert (all_chars p x = true) as H
  end.
  { do 2 apply all_chars_strip.
    apply sub_keeps; [|by simpl; rewrite Hsp|].
    { intros t r H. destruct t as [|c t]; [done|]. simpl in H.
      destruct (isspace c); [|done]. simplify_eq.
      destruct (skip_spaces_suffix t) as [q Hq]. exists (String c q).
      simpl. by rewrite <- Hq. }
    apply sub_keeps; [apply match_class_suffix|by simpl; rewrite Hus|].
    apply sub_keeps; [apply match_amp_suffix| |].
    { change " and " with (" " +:+ "and" +:+ " ").
      rewrite !all_chars_app, Hand. simpl. by rewrite Hsp. }
    apply sub_keeps; [apply match_review_suffix|by simpl; rewrite Hsp|done]. }
  destruct (_ <? _)%nat; [by apply all_chars_take|done].
Qed.

Lemma tidy_name_chars s :
  all_chars plain s = true -> single_spaced s -> all_chars name_char s = true.
Proof.
  induction s as [|c s IH]; [done|].
  intros [Hc Hs]%all_chars_cons [Hsp Hss]. apply all_chars_cons.
  split; [|auto]. unfold plain, is_special in Hc. unfold name_char.
  apply negb_true_iff, negb_false_iff in Hc.
  destruct (isword c); [done|]. destruct (isspace c) eqn:E.
  - by destruct (Hsp eq_refl) as [-> _].
  - simpl in *. rewrite Hc. apply orb_true_r.
Qed.

Lemma clean_name_chars phone_name :
  all_chars name_char (clean_name_of phone_name) = true.
Proof.
  apply tidy_name_chars; [apply clean_name_plain|apply clean_name_tidy].
Qed.

Lemma brand_mappings_values k b :
  brand_mappings !! k = Some b ->
  truthy b = true /\ all_chars name_char b = true.
Proof.
  unfold brand_mappings. intros H%elem_of_list_to_map_2.
  repeat (apply elem_of_cons in H as [H|H]; [by simplify_eq|]).
  by apply elem_of_nil in H.
Qed.

(** Whatever the phone name, each of the four fields that
    [clean_phone_name] returns holds nothing but word characters, spaces
    and hyphens; the brand and the display name are never empty, and the
    safe name is at most 100 characters long. *)
Theorem clean_phone_name_fields (phone_name : string) :
  let info := clean_phone_name phone_name in
  all_chars name_char (safe_name info) = true
  /\ all_chars name_char (display_name info) = true
  /\ all_chars name_char (brand info) = true
  /\ all_chars name_char (model info) = true
  /\ brand info <> ""
  /\ display_name info <> ""
  /\ (String.length (safe_name info) <= 100)%nat.
Proof.
  intros info. subst info. unfold clean_phone_name. cbn [safe_name display_name brand model].
  pose proof (clean_name_chars phone_name) as Hchars.
  pose proof (split_ws_tidy _ (clean_name_tidy phone_name)) as Hjoin.
  assert (all_chars name_char (brand_of (split_ws (clean_name_of phone_name))) = true
          /\ truthy (brand_of (split_ws (clean_name_of phone_name))) = true
          /\ all_chars name_char (join " " (tail (split_ws (clean_name_of phone_name))))
             = true) as (Hbrand & Hbrand' & Hmodel).
  { destruct (split_ws (clean_name_of phone_name)) as [|w ws]; [done|].
    destruct Hjoin as [Hw Hjoin]. rewrite Hjoin in Hchars. cbn [tail brand_of].
    assert (all_chars name_char w = true
            /\ all_chars name_char (join " " ws) = true) as [Hw1 Hws].
    { destruct ws as [|v ws]; [done|]. rewrite join_cons in Hchars.
      rewrite !all_chars_app in Hchars.
      by apply andb_true_iff in Hchars as [? [_ ?]%andb_true_iff]. }
    destruct (brand_mappings !! lower w) as [b|] eqn:E; [|done].
    by destruct (brand_mappings_values _ _ E). }
  set (b := brand_of (split_ws (clean_name_of phone_name))) in *.
  set (m := join " " (tail (split_ws (clean_name_of phone_name)))) in *.
  split_and!; [|destruct (truthy m)|done..| | |apply sanitize_filename_length].
  - by apply sanitize_filename_keeps.
  - rewrite !all_chars_app, Hbrand, Hmodel. done.
  - done.
  - by intros ->.
  - destruct (truthy m); destruct b; done.
Qed.

End NameFields.

(** ** More on the pictures URL and on discovery *)

Section UrlShape.

Import Py Image.

Lemma rsplit1_spec c s :
  match rsplit1 c s with
  | [a; b] => s = a +:+ String c b /\ find_sub (String c "") b = None
  | [x] => x = s /\ find_sub (String c "") s = None
  | _ => False
  end.
Proof.
  induction s as [|d s IH]; [done|]. cbn [rsplit1].
  destruct (rsplit1 c s) as [|a [|b [|? ?]]]; try done.
  - destruct IH as [-> Hs]. destruct (Ascii.eqb_spec d c) as [->|Hne]; [done|].
    split; [done|]. apply find_char_None. split; [congruence|done].
  - destruct IH as [-> Hb]. done.
Qed.

(** [construct_pictures_url] fails exactly when the base of the URL holds
    no hyphen.  Otherwise it cuts the base at its last hyphen: what follows
    the cut holds no hyphen and becomes the id, what precedes it becomes the
    name, and the result is the site root, the name, [-pictures-], the id
    and [.php]. *)
Theorem construct_pictures_url_cuts_at_last_hyphen (spec_url : string) :
  (construct_pictures_url spec_url = None
   <-> contains "-" (url_base spec_url) = false)
  /\ forall pictures_url,
       construct_pictures_url spec_url = Some pictures_url ->
       exists phone_name phone_id,
         url_base spec_url = phone_name +:+ "-" +:+ phone_id
         /\ contains "-" phone_id = false
         /\ pictures_url
            = "https://www.gsmarena.com/" +:+ phone_name +:+ "-pictures-"
              +:+ phone_id +:+ ".php".
Proof.
  unfold construct_pictures_url.
  pose proof (rsplit1_spec "-" (url_base spec_url)) as H.
  destruct (rsplit1 "-" (url_base spec_url)) as [|a [|b [|? ?]]]; try done.
  - destruct H as [_ H]. split; [by rewrite contains_false|done].
  - destruct H as [Heq Hb]. split.
    + split; [done|]. rewrite contains_false, Heq. intros Hnone.
      exfalso. revert Hnone. apply (find_sub_suffix "-" a (String "-" b)).
      by rewrite find_sub_eq.
    + intros ? [= <-]. exists a, b. by rewrite contains_false.
Qed.

Variable urljoin : string -> string -> string.

Lemma scan_links_extends max_images hrefs image_urls :
  exists added,
    scan_links urljoin max_images hrefs image_urls = image_urls ++ added.
Proof.
  revert image_urls. induction hrefs as [|href rest IH]; intros acc; simpl.
  { exists []. by rewrite app_nil_r. }
  destruct (has_image_ext href); [|done]. case_bool_decide; [done|].
  destruct (max_images <=? _); [by eexists|].
  destruct (IH (acc ++ [urljoin site_root href])) as [b ->].
  eexists. by rewrite <- (assoc_L (++)).
Qed.

Lemma scan_imgs_extends max_images img_tags image_urls :
  exists added,
    scan_imgs urljoin max_images img_tags image_urls = image_urls ++ added.
Proof.
  revert image_urls. induction img_tags as [|img rest IH]; intros acc; simpl.
  { exists []. by rewrite app_nil_r. }
  destruct (is_skipped _); [done|]. destruct (_ && _); [|done].
  case_bool_decide; [done|].
  destruct (max_images <=? _); [by eexists|].
  destruct (IH (acc ++ [full_size (urljoin site_root (default "" img))]))
    as [b ->].
  eexists. by rewrite <- (assoc_L (++)).
Qed.

(** When the main-photo container has an image with a source, the list
    that discovery returns starts with that image, resolved against the
    site root and turned into its full-size form, whenever the list is not
    empty: the file saved as [main] is the main photo. *)
Theorem main_photo_comes_first
    (page : pictures_page) (max_images : Z) (main_img_src : string)
    (first : string) (others : list string) :
  specs_photo_main_img page = Some (Some main_img_src) ->
  main_img_src <> "" ->
  scrape_images urljoin page max_images = first :: others ->
  first = full_size (urljoin site_root main_img_src).
Proof.
  intros Hmain Hsrc. unfold scrape_images.
  assert (find_main urljoin page []
          = [full_size (urljoin site_root main_img_src)]) as ->.
  { unfold find_main. rewrite Hmain. by destruct main_img_src. }
  set (u := full_size (urljoin site_root main_img_src)).
  assert (exists rest,
             match pictures_list page with
             | Some pl => scan_links urljoin max_images (links pl) [u]
             | None => [u]
             end = u :: rest) as [rest ->].
  { destruct (pictures_list page) as [pl|]; [|by eexists].
    destruct (scan_links_extends max_images (links pl) [u]) as [b ->].
    by eexists. }
  assert (exists rest',
             (if Z.of_nat (length (u :: rest)) <=? 1
              then scan_imgs urljoin max_images (broad_img_tags page) (u :: rest)
              else u :: rest) = u :: rest') as [rest' ->].
  { destruct (_ <=? 1); [|by eexists].
    destruct (scan_imgs_extends max_images (broad_img_tags page) (u :: rest))
      as [b ->].
    by eexists. }
  unfold slice_to.
  destruct (0 <=? max_images);
    match goal with
    | |- take ?n _ = _ -> _ => destruct n; simpl; congruence
    end.
Qed.

End UrlShape.

Lemma main_photo_comes_first_witness :
  Sample.front_jpg
  = Image.full_size
      (Sample.join_relative Image.site_root "vv/bigpic/vivo-x300-pro.jpg").
Proof.
  apply (main_photo_comes_first Sample.join_relative Sample.gallery 2
           "vv/bigpic/vivo-x300-pro.jpg" Sample.front_jpg [Sample.back_jpg]);
    [reflexivity|discriminate|reflexivity].
Defined.

Lemma manifest_entries_are_bounded_witness :
  map_Forall
    (fun _ e => Z.of_nat (Image.image_count e) <= 2)
    (Image.results
       (Image.process_phones_from_csv Sample.join_relative Sample.whole_url
          Sample.serve_gallery Sample.next_response
          (Some [{[ "phone_name" := Sample.vivo_name;
                    "spec_url" := Sample.vivo_spec_url ]}])
          "images" None 2 0 (Sample.not_found_then_image, ∅)).1).
Proof.
  eapply map_Forall_impl;
    [apply (manifest_entries_are_bounded Sample.join_relative Sample.whole_url
              Sample.serve_gallery Sample.next_response); lia|].
  intros phone_name e (_ & H & _). exact H.
Defined.

(** ** Runs of the review lister *)

Section Runs.

Import Py Review.
Variable urljoin : string -> string -> string.

Lemma page_url_inj base_url n k :
  page_url base_url n = page_url base_url k -> n = k.
Proof.
  unfold page_url.
  destruct (Z.eqb_spec n 1) as [->|Hn], (Z.eqb_spec k 1) as [->|Hk];
    intros H; [done| | |].
  - apply (f_equal String.length) in H. rewrite str_app_length in H.
    simpl in H. lia.
  - apply (f_equal String.length) in H. rewrite str_app_length in H.
    simpl in H. lia.
  - apply (inj (String.append base_url)) in H. simplify_eq/=.
    by apply str_of_Z_inj.
Qed.

(** What a run that ends has done, round by round. *)
Lemma scrape_loop_run responses base_url start_page max_pages page_num
    consecutive_empty reviews_so_far urls r :
  scrape_loop urljoin responses base_url start_page max_pages page_num
    consecutive_empty reviews_so_far urls = Some r ->
  0 <= consecutive_empty ->
  exists used,
    used <> []
    /\ responses = used ++ unused r
    /\ all_reviews r
       = reviews_so_far
         ++ concat ((fun p => (scrape_single_page urljoin p).1) <$> used)
    /\ requested r
       = urls ++ imap (fun i _ => page_url base_url (page_num + Z.of_nat i)) used
    /\ (forall i p, responses !! i = Some p ->
                    scrape_single_page urljoin p = ([], false) ->
                    (length used <= i + 1)%nat)
    /\ (forall i k,
          (forall j, (j < k)%nat ->
             exists p, responses !! (i + j)%nat = Some p
                       /\ (scrape_single_page urljoin p).1 = []) ->
          (1 <= k)%nat ->
          3 <= (if (i =? 0)%nat then consecutive_empty else 0) + Z.of_nat k ->
          (length used <= i + k)%nat).
Proof.
  revert page_num consecutive_empty reviews_so_far urls.
  induction responses as [|resp rest IH];
    intros page_num ce acc urls Hrun Hce; [done|].
  cbn [scrape_loop] in Hrun.
  assert (forall acc',
             acc' = acc ++ (scrape_single_page urljoin resp).1 ->
             Some {| all_reviews := acc';
                     requested := urls ++ [page_url base_url page_num];
                     unused := rest |} = Some r ->
             exists used,
               used <> [] /\ resp :: rest = used ++ unused r
               /\ all_reviews r
                  = acc ++ concat ((fun p => (scrape_single_page urljoin p).1)
                                     <$> used)
               /\ requested r
                  = urls ++ imap (fun i _ =>
                                    page_url base_url (page_num + Z.of_nat i)) used
               /\ length used = 1%nat) as Hstop.
  { intros acc' -> [= <-]. exists [resp]. simpl.
    rewrite app_nil_r, Z.add_0_r. done. }
  assert (forall acc' ce',
             acc' = acc ++ (scrape_single_page urljoin resp).1 ->
             0 <= ce' ->
             scrape_loop urljoin rest base_url start_page max_pages
               (page_num + 1) ce' acc' (urls ++ [page_url base_url page_num])
             = Some r ->
             exists used',
               rest = used' ++ unused r
               /\ all_reviews r
                  = acc ++ concat ((fun p => (scrape_single_page urljoin p).1)
                                     <$> resp :: used')
               /\ requested r
                  = urls ++ imap (fun i _ =>
                                    page_url base_url (page_num + Z.of_nat i))
                             (resp :: used')
               /\ (forall i p, rest !! i = Some p ->
                               scrape_single_page urljoin p = ([], false) ->
                               (length used' <= i + 1)%nat)
               /\ (forall i k,
                     (forall j, (j < k)%nat ->
                        exists p, rest !! (i + j)%nat = Some p
                                  /\ (scrape_single_page urljoin p).1 = []) ->
                     (1 <= k)%nat ->
                     3 <= (if (i =? 0)%nat then ce' else 0) + Z.of_nat k ->
                     (length used' <= i + k)%nat)) as Hgo.
  { intros acc' ce' -> Hce' Hrec.
    destruct (IH _ _ _ _ Hrec Hce') as (used' & _ & H1 & H2 & H3 & H4 & H5).
    exists used'. split_and!; [done| | |done..].
    - rewrite H2. simpl. by rewrite (assoc_L (++)).
    - rewrite H3, <- (assoc_L (++)). simpl. rewrite Z.add_0_r. do 2 f_equal.
      apply imap_ext. intros i x _. simpl. f_equal. lia. }
  destruct (scrape_single_page urljoin resp) as [reviews has_content] eqn:Escrape.
  simpl in Hstop, Hgo.
  destruct reviews as [|rv reviews].
  - rewrite app_nil_r in Hstop, Hgo.
    destruct (negb has_content || (max_consecutive_empty <=? ce + 1)) eqn:Estop;
      [|destruct (limit_reached max_pages start_page page_num)].
    + destruct (Hstop acc eq_refl Hrun) as (used & ? & ? & ? & ? & Hlen).
      exists used. split_and!; [done..| |]; intros; lia.
    + destruct (Hstop acc eq_refl Hrun) as (used & ? & ? & ? & ? & Hlen).
      exists used. split_and!; [done..| |]; intros; lia.
    + apply orb_false_iff in Estop as [Hcontent Hstreak].
      apply negb_false_iff in Hcontent. subst has_content.
      unfold max_consecutive_empty in Hstreak. apply Z.leb_gt in Hstreak.
      destruct (Hgo acc (ce + 1) eq_refl ltac:(lia) Hrun)
        as (used' & H1 & H2 & H3 & H4 & H5).
      exists (resp :: used'). split_and!; [done|by rewrite H1|done..| |].
      * intros [|i] p Hp Hnone; simpl in *; [simplify_eq; congruence|].
        specialize (H4 i p Hp Hnone). lia.
      * intros [|i] k Hk Hk1 Hk3; simpl in *.
        -- destruct k as [|[|k]]; [lia..|].
           assert (length used' <= 0 + S k)%nat; [|lia].
           apply H5; [|lia|simpl; lia].
           intros j Hj. destruct (Hk (S j) ltac:(lia)) as (p & Hp & ?). eauto.
        -- assert (length used' <= i + k)%nat; [|lia].
           apply H5; [|lia|destruct (i =? 0)%nat; lia].
           intros j Hj. destruct (Hk j Hj) as (p & Hp & ?). eauto.
  - destruct (limit_reached max_pages start_page page_num).
    + destruct (Hstop _ eq_refl Hrun) as (used & ? & ? & ? & ? & Hlen).
      exists used. split_and!; [done..| |]; intros; lia.
    + destruct (Hgo _ 0 eq_refl ltac:(lia) Hrun)
        as (used' & H1 & H2 & H3 & H4 & H5).
      exists (resp :: used'). split_and!; [done|by rewrite H1|done..| |].
      * intros [|i] p Hp Hnone; simpl in *; [simplify_eq; congruence|].
        specialize (H4 i p Hp Hnone). lia.
      * intros [|i] k Hk Hk1 Hk3; simpl in *.
        -- destruct (Hk 0%nat ltac:(lia)) as (p & Hp & Hempty).
           simpl in Hp. simplify_eq. by rewrite Escrape in Hempty.
        -- assert (length used' <= i + k)%nat; [|lia].
           apply H5; [|lia|destruct (i =? 0)%nat; lia].
           intros j Hj. destruct (Hk j Hj) as (p & Hp & ?). eauto.
Qed.

(** A run that ends has made at least one request.  The URLs it requested
    are those of consecutive pages from the start page on, none of them
    twice; the responses it did not use are the rest of the script; and the
    records it returns are the records of the pages it read, page after
    page. *)
Theorem run_accounts_for_every_page
    (responses : list response) (base_url : string) (start_page : Z)
    (max_pages : option Z) (r : run) :
  scrape_gsmarena_reviews urljoin responses base_url start_page max_pages
  = Some r ->
  let n := length (requested r) in
  (1 <= n)%nat
  /\ unused r = drop n responses
  /\ all_reviews r
     = concat ((fun p => (scrape_single_page urljoin p).1) <$> take n responses)
  /\ requested r
     = (fun i => page_url base_url (start_page + Z.of_nat i)) <$> seq 0 n
  /\ NoDup (requested r).
Proof.
  intros Hrun n. unfold scrape_gsmarena_reviews in Hrun.
  destruct (scrape_loop_run _ _ _ _ _ _ _ _ _ Hrun ltac:(lia))
    as (used & Hused & Hsplit & Hall & Hreq & _). simpl in Hall, Hreq.
  assert (n = length used) as Hn.
  { subst n. by rewrite Hreq, length_imap. }
  assert (requested r
          = (fun i => page_url base_url (start_page + Z.of_nat i)) <$> seq 0 n)
    as Hseq.
  { rewrite Hreq, Hn. apply (imap_seq_0 used
      (fun i => page_url base_url (start_page + Z.of_nat i))). }
  split_and!.
  - rewrite Hn. destruct used; [done|simpl; lia].
  - by rewrite Hsplit, Hn, drop_app_length.
  - by rewrite Hall, Hsplit, Hn, take_app_length.
  - done.
  - rewrite Hseq. apply NoDup_fmap_2_strong; [|apply NoDup_seq].
    intros i j _ _ H%page_url_inj. lia.
Qed.

(** A run honours its stop rules.  A page without records and without
    content is the last page read; so is the third of three pages in a row
    without records. *)
Theorem run_stops_on_empty_pages
    (responses : list response) (base_url : string) (start_page : Z)
    (max_pages : option Z) (r : run) :
  scrape_gsmarena_reviews urljoin responses base_url start_page max_pages
  = Some r ->
  let n := length (requested r) in
  (forall i p, responses !! i = Some p ->
               scrape_single_page urljoin p = ([], false) ->
               (n <= i + 1)%nat)
  /\ (forall i a b c,
        responses !! i = Some a -> responses !! (i + 1)%nat = Some b ->
        responses !! (i + 2)%nat = Some c ->
        (scrape_single_page urljoin a).1 = [] ->
        (scrape_single_page urljoin b).1 = [] ->
        (scrape_single_page urljoin c).1 = [] ->
        (n <= i + 3)%nat).
Proof.
  intros Hrun n. unfold scrape_gsmarena_reviews in Hrun.
  destruct (scrape_loop_run _ _ _ _ _ _ _ _ _ Hrun ltac:(lia))
    as (used & _ & _ & _ & Hreq & Hnone & Hstreak). simpl in Hreq.
  assert (n = length used) as ->.
  { subst n. by rewrite Hreq, length_imap. }
  split; [done|]. intros i a b c Ha Hb Hc Ea Eb Ec.
  apply Hstreak; [|lia|destruct (i =? 0)%nat; lia].
  intros [|[|[|j]]] Hj; [| | |lia].
  - exists a. by rewrite Nat.add_0_r.
  - by exists b.
  - by exists c.
Qed.

Lemma scrape_loop_limit responses base_url start_page m page_num
    consecutive_empty reviews_so_far urls :
  m <> 0 ->
  (forall r,
      scrape_loop urljoin responses base_url start_page (Some m) page_num
        consecutive_empty reviews_so_far urls = Some r ->
      Z.of_nat (length (requested r))
      <= Z.of_nat (length urls) + Z.max 1 (m - (page_num - start_page)))
  /\ (Z.max 1 (m - (page_num - start_page)) <= Z.of_nat (length responses) ->
      is_Some (scrape_loop urljoin responses base_url start_page (Some m)
                 page_num consecutive_empty reviews_so_far urls)).
Proof.
  intros Hm. revert page_num consecutive_empty reviews_so_far urls.
  induction responses as [|resp rest IH]; intros page_num ce acc urls.
  { split; [done|]. simpl. lia. }
  cbn [scrape_loop].
  assert (forall acc' ce',
             (forall r,
                 (if limit_reached (Some m) start_page page_num
                  then Some {| all_reviews := acc';
                               requested := urls ++ [page_url base_url page_num];
                               unused := rest |}
                  else scrape_loop urljoin rest base_url start_page (Some m)
                         (page_num + 1) ce' acc'
                         (urls ++ [page_url base_url page_num])) = Some r ->
                 Z.of_nat (length (requested r))
                 <= Z.of_nat (length urls)
                    + Z.max 1 (m - (page_num - start_page)))
             /\ (Z.max 1 (m - (page_num - start_page))
                 <= Z.of_nat (length (resp :: rest)) ->
                 is_Some
                   (if limit_reached (Some m) start_page page_num
                    then Some {| all_reviews := acc';
                                 requested := urls ++ [page_url base_url page_num];
                                 unused := rest |}
                    else scrape_loop urljoin rest base_url start_page (Some m)
                           (page_num + 1) ce' acc'
                           (urls ++ [page_url base_url page_num]))))
    as Hgo.
  { intros acc' ce'. unfold limit_reached.
    destruct (Z.eqb_spec m 0); [done|]. cbn [negb andb].
    destruct (Z.leb_spec m (page_num - start_page + 1)).
    - split; [|by eexists]. intros r [= <-]. simpl. rewrite length_app. simpl. lia.
    - destruct (IH (page_num + 1) ce' acc' (urls ++ [page_url base_url page_num]))
        as [H1 H2].
      split.
      + intros r Hr. specialize (H1 r Hr). rewrite length_app in H1.
        simpl in H1. lia.
      + intros Hlen. apply H2. simpl in Hlen. lia. }
  destruct (scrape_single_page urljoin resp) as [[|rv reviews] has_content].
  - destruct (negb has_content || _); [|apply Hgo].
    split; [|by eexists]. intros r [= <-]. simpl. rewrite length_app. simpl. lia.
  - apply Hgo.
Qed.

(** A page limit other than zero bounds a run: it makes no more requests
    than the limit (one request when the limit is negative), and a script
    with that many responses is enough for the run to end. *)
Theorem page_limit_bounds_the_run
    (responses : list response) (base_url : string) (start_page m : Z) :
  m <> 0 ->
  (forall r,
      scrape_gsmarena_reviews urljoin responses base_url start_page (Some m)
      = Some r ->
      Z.of_nat (length (requested r)) <= Z.max 1 m)
  /\ (Z.max 1 m <= Z.of_nat (length responses) ->
      is_Some (scrape_gsmarena_reviews urljoin responses base_url start_page
                 (Some m))).
Proof.
  intros Hm. unfold scrape_gsmarena_reviews.
  destruct (scrape_loop_limit responses base_url start_page m start_page 0 [] [] Hm)
    as [H1 H2].
  rewrite Z.sub_diag, Z.sub_0_r in H1, H2. split; [|done].
  intros r Hr. specialize (H1 r Hr). simpl in H1. lia.
Qed.

Lemma extract_item_keys (item : review_item) :
  let keys := (extract_item urljoin item).*1 in
  keys `sublist_of`
    ["phone_name"; "review_url"; "image_url"; "image_alt"; "date"; "snippet"]
  /\ ("review_url" ∈ keys -> "phone_name" ∈ keys)
  /\ ("image_url" ∈ keys <-> "image_alt" ∈ keys).
Proof.
  destruct item as [h3 h2 a img li span para]. intros keys. subst keys.
  unfold extract_item. simpl.
  destruct (first_some h3 (first_some h2 a)) as [[text [href|]]|]; simpl;
    try destruct (truthy href); simpl;
    destruct img as [[src alt]|]; simpl;
    destruct (first_some li span) as [d|]; simpl;
    destruct para as [t|]; simpl;
    (split_and!;
     [repeat first [apply sublist_nil | apply sublist_skip | apply sublist_cons]
     |rewrite ?elem_of_cons, ?elem_of_nil; intuition congruence..]).
Qed.

Lemma scrape_single_page_shape resp :
  Forall record_shape (scrape_single_page urljoin resp).1.
Proof.
  destruct resp as [| |page]; simpl; [done|done|].
  apply Forall_forall. intros d [Hne Hd]%list_elem_of_filter.
  apply list_elem_of_fmap in Hd as (item & -> & _).
  split; [done|]. apply extract_item_keys.
Qed.

(** Every record that [scrape_single_page] returns, whatever the response,
    and every record that a run of [scrape_gsmarena_reviews] returns, has
    the shape of a record: it is not empty, its keys are some of the six
    field names in their fixed order and none twice, it has a review URL
    only with a phone name, and an image URL exactly with an image
    text. *)
Theorem records_are_well_formed :
  (forall resp, Forall record_shape (scrape_single_page urljoin resp).1)
  /\ (forall responses base_url start_page max_pages r,
        scrape_gsmarena_reviews urljoin responses base_url start_page max_pages
        = Some r ->
        Forall record_shape (all_reviews r)).
Proof.
  split; [apply scrape_single_page_shape|].
  intros responses base_url start_page max_pages r Hrun.
  unfold scrape_gsmarena_reviews in Hrun.
  destruct (scrape_loop_run _ _ _ _ _ _ _ _ _ Hrun ltac:(lia))
    as (used & _ & _ & Hall & _). simpl in Hall. rewrite Hall.
  apply Forall_concat, Forall_fmap, Forall_forall. intros resp _.
  apply scrape_single_page_shape.
Qed.

End Runs.

Lemma run_accounts_for_every_page_witness :
  Review.unused Sample.two_page_run = drop 2 Sample.three_pages
  /\ NoDup (Review.requested Sample.two_page_run).
Proof.
  destruct (run_accounts_for_every_page Sample.join_relative
              Sample.three_pages Sample.reviews_url 1 (Some 2)
              Sample.two_page_run) as (_ & H1 & _ & _ & H2);
    [reflexivity|].
  split; [exact H1|exact H2].
Defined.

Lemma run_stops_on_empty_pages_witness :
  (length (Review.requested Sample.five_page_run) <= 2 + 3)%nat.
Proof.
  destruct (run_stops_on_empty_pages Sample.join_relative
              Sample.five_pages Sample.reviews_url 1 None
              Sample.five_page_run) as [_ H]; [reflexivity|].
  apply (H 2%nat (Review.Fetched Sample.blank_page)
           (Review.Fetched Sample.blank_page)
           (Review.Fetched Sample.blank_page)); reflexivity.
Defined.

Lemma page_limit_bounds_the_run_witness :
  is_Some (Review.scrape_gsmarena_reviews Sample.join_relative
             Sample.three_pages Sample.reviews_url 1 (Some 2)).
Proof.
  apply (page_limit_bounds_the_run Sample.join_relative Sample.three_pages
           Sample.reviews_url 1 2); [discriminate|simpl; lia].
Defined.

(** ** The CSV file of the reviews *)

Section ReviewCsv.

Import Py Review.

Lemma dict_to_list_cells fieldnames row :
  dict_to_list fieldnames row
  = if bool_decide (Forall (fun k => k ∈ fieldnames) row.*1)
    then Some (get_cell row <$> fieldnames) else None.
Proof.
  unfold dict_to_list.
  destruct (forallb _ _) eqn:E.
  - rewrite bool_decide_true; [done|].
    apply Forall_forall. intros k Hk%list_elem_of_In.
    rewrite forallb_forall in E. by eapply bool_decide_eq_true_1, E.
  - rewrite bool_decide_false; [done|]. intros H.
    assert (forallb (fun k => bool_decide (k ∈ fieldnames)) row.*1 = true);
      [|congruence].
    apply forallb_forall. intros k Hk%list_elem_of_In.
    apply bool_decide_eq_true_2. by eapply Forall_forall in H.
Qed.

(** What the writer has done when it stops: the rows in front of the
    first one with a foreign key are in the table. *)
Lemma write_rows_spec fieldnames rows table :
  exists n,
    (n <= length rows)%nat
    /\ Forall (fun row => Forall (fun k => k ∈ fieldnames) row.*1) (take n rows)
    /\ (write_rows fieldnames rows table).2
       = table ++ ((fun row => get_cell row <$> fieldnames) <$> take n rows)
    /\ ((write_rows fieldnames rows table).1 = true <-> n = length rows)
    /\ (forall row, rows !! n = Some row ->
                    ~ Forall (fun k => k ∈ fieldnames) row.*1).
Proof.
  revert table. induction rows as [|row rows IH]; intros table.
  { exists 0%nat. simpl. by rewrite app_nil_r. }
  simpl. rewrite dict_to_list_cells. case_bool_decide as Hrow.
  - destruct (IH (table ++ [get_cell row <$> fieldnames]))
      as (n & Hn & Hall & Htable & Hok & Hnext).
    exists (S n). simpl. split_and!; [lia|by constructor| | |done].
    + by rewrite Htable, <- (assoc_L (++)).
    + rewrite Hok. split; [by intros ->|by intros [= ->]].
  - exists 0%nat. simpl. rewrite app_nil_r.
    split_and!; [lia|done|done|done|]. by intros ? [= <-].
Qed.

(** [save_to_csv] returns true exactly when there is a record, the file
    can be opened, and no record has a key that the first record lacks.
    The file is left unopened exactly when there is no record or it cannot
    be opened.  When it was opened it holds the keys of the first record
    as its header and, under it, one line for each record in front of the
    first one with a foreign key: the values of the record under the
    header, blank where the record lacks the key. *)
Theorem save_to_csv_wants_the_keys_of_the_first_record
    (data : list review_data) (can_open : bool) :
  ((save_to_csv data can_open).1 = true
   <-> exists first,
         head data = Some first /\ can_open = true
         /\ Forall (fun row => forall k, k ∈ row.*1 -> k ∈ first.*1) data)
  /\ ((save_to_csv data can_open).2 = None <-> data = [] \/ can_open = false)
  /\ (forall first table,
        head data = Some first ->
        (save_to_csv data can_open).2 = Some table ->
        exists n,
          (n <= length data)%nat
          /\ table
             = first.*1
               :: ((fun row => get_cell row <$> first.*1) <$> take n data)
          /\ ((save_to_csv data can_open).1 = true <-> n = length data)
          /\ (forall row, data !! n = Some row ->
                          exists k, k ∈ row.*1 /\ k ∉ first.*1)).
Proof.
  destruct data as [|first rest].
  { simpl. split_and!; [|naive_solver..]. split; [done|]. by intros (? & ? & _). }
  unfold save_to_csv. destruct can_open.
  2:{ simpl. split_and!; [|naive_solver..]. split; [done|]. by intros (? & _ & ? & _). }
  destruct (write_rows_spec first.*1 (first :: rest) [first.*1])
    as (n & Hn & Hall & Htable & Hok & Hnext).
  destruct (write_rows first.*1 (first :: rest) [first.*1]) as [ok table] eqn:E.
  simpl in Htable, Hok. cbn [fst snd head]. split_and!.
  - rewrite Hok. split.
    + intros ->. exists first. split_and!; [done..|].
      rewrite take_ge in Hall by (simpl; lia). eapply Forall_impl; [exact Hall|].
      intros row Hrow k Hk. by eapply Forall_forall in Hrow.
    + intros (? & [= <-] & _ & Hkeys).
      destruct (decide (n = length (first :: rest))) as [|Hne]; [done|].
      destruct (lookup_lt_is_Some_2 (first :: rest) n) as [row Hrow]; [lia|].
      destruct (Hnext row Hrow). apply Forall_forall. intros k Hk.
      eapply Forall_forall in Hkeys; [by apply Hkeys|].
      by eapply list_elem_of_lookup_2.
  - split; [done|by intros [|]].
  - intros ? table' [= <-] [= <-]. exists n. split_and!; [done..|].
    intros row Hrow. specialize (Hnext row Hrow).
    apply not_Forall_Exists in Hnext; [|intros k; apply _].
    apply Exists_exists in Hnext as (k & ? & ?). by exists k.
Qed.

End ReviewCsv.

(** ** The link to the specification page *)

Section SpecLinks.

Import Py Specs.
Variable urljoin : string -> string -> option string.

Lemma first_link_spec test links :
  match first_link urljoin test links with
  | Some joined =>
      exists before l after,
        links = before ++ l :: after
        /\ Forall (fun l' => test l' = false) before
        /\ test l = true
        /\ joined = urljoin site_root (link_href l)
  | None => Forall (fun l => test l = false) links
  end.
Proof.
  induction links as [|l links IH]; simpl; [done|].
  destruct (test l) eqn:E.
  - by exists [], l, links.
  - destruct (first_link urljoin test links) as [joined|].
    + destruct IH as (before & l' & after & -> & ? & ? & ->).
      exists (l :: before), l', after. split_and!; [done|by constructor|done..].
    + by constructor.
Qed.

Lemma first_link_at test before l after :
  Forall (fun l' => test l' = false) before ->
  test l = true ->
  first_link urljoin test (before ++ l :: after)
  = Some (urljoin site_root (link_href l)).
Proof.
  intros Hbefore Hl. induction Hbefore as [|l' before Hl' _ IH]; simpl.
  - by rewrite Hl.
  - by rewrite Hl'.
Qed.

(** A specification URL that is found is the [href] of a link of the
    review page, joined to the site root, and the link passes one of the
    two tests.  The first link that names the specifications decides:
    when its joined URL is not empty it is the result, wherever the links
    with the pattern of a specification page stand, and when joining it
    raises nothing is found, whatever the other links are.  Without a
    link that names the specifications the first link with the pattern
    decides in the same way.  Nothing is found when the page cannot be
    fetched; and when nothing is found on a page that was fetched, either
    joining a link that passes a test raised or no link has the
    pattern. *)
Theorem find_spec_url_picks_a_link :
  find_spec_url_from_review urljoin None = None
  /\ (forall links spec_url,
        find_spec_url_from_review urljoin (Some links) = Some spec_url ->
        exists l,
          l ∈ links
          /\ urljoin site_root (link_href l) = Some spec_url
          /\ (is_named l = true \/ is_numbered l = true))
  /\ (forall before l after spec_url,
        Forall (fun l' => is_named l' = false) before ->
        is_named l = true ->
        urljoin site_root (link_href l) = Some spec_url ->
        spec_url <> "" ->
        find_spec_url_from_review urljoin (Some (before ++ l :: after))
        = Some spec_url)
  /\ (forall before l after,
        Forall (fun l' => is_named l' = false) before ->
        is_named l = true ->
        urljoin site_root (link_href l) = None ->
        find_spec_url_from_review urljoin (Some (before ++ l :: after))
        = None)
  /\ (forall before l after,
        Forall (fun l' => is_named l' = false) (before ++ l :: after) ->
        Forall (fun l' => is_numbered l' = false) before ->
        is_numbered l = true ->
        find_spec_url_from_review urljoin (Some (before ++ l :: after))
        = urljoin site_root (link_href l))
  /\ (forall links,
        find_spec_url_from_review urljoin (Some links) = None ->
        (exists l,
            l ∈ links
            /\ (is_named l = true \/ is_numbered l = true)
            /\ urljoin site_root (link_href l) = None)
        \/ Forall (fun l => is_numbered l = false) links).
Proof.
  assert (forall test links joined,
             first_link urljoin test links = Some joined ->
             exists l, l ∈ links /\ test l = true
                       /\ joined = urljoin site_root (link_href l)) as Hin.
  { intros test links joined E.
    pose proof (first_link_spec test links) as H. rewrite E in H.
    destruct H as (before & l & after & -> & _ & ? & ->).
    exists l. split_and!; [|done..]. apply elem_of_app. right. by left. }
  split_and!; [done| | | | |].
  - intros links spec_url. unfold find_spec_url_from_review.
    destruct (first_link urljoin is_named links) as [[u|]|] eqn:E1; [| |].
    + destruct (Hin _ _ _ E1) as (l & Hl & Hnamed & Hjoin).
      destruct (truthy u).
      * intros [= <-]. exists l. split_and!; [done|done|by left].
      * destruct (first_link urljoin is_numbered links) as [found|] eqn:E2.
        -- intros ->. destruct (Hin _ _ _ E2) as (l2 & ? & ? & ?).
           exists l2. split_and!; [done|done|by right].
        -- intros [= <-]. exists l. split_and!; [done|done|by left].
    + done.
    + destruct (first_link urljoin is_numbered links) as [found|] eqn:E2;
        [|done].
      intros ->. destruct (Hin _ _ _ E2) as (l2 & ? & ? & ?).
      exists l2. split_and!; [done|done|by right].
  - intros before l after spec_url Hbefore Hl Hjoin Hne.
    unfold find_spec_url_from_review.
    rewrite (first_link_at is_named before l after Hbefore Hl), Hjoin.
    by destruct spec_url.
  - intros before l after Hbefore Hl Hjoin. unfold find_spec_url_from_review.
    by rewrite (first_link_at is_named before l after Hbefore Hl), Hjoin.
  - intros before l after Hnone Hbefore Hl. unfold find_spec_url_from_review.
    pose proof (first_link_spec is_named (before ++ l :: after)) as Hnamed.
    destruct (first_link urljoin is_named (before ++ l :: after)) as [joined|].
    + destruct Hnamed as (b & l' & a & Heq & _ & Hnamed & _).
      rewrite Heq in Hnone. apply Forall_app in Hnone as [_ Hnone].
      apply Forall_cons in Hnone as [Hnone _]. congruence.
    + by rewrite (first_link_at is_numbered before l after Hbefore Hl).
  - intros links. unfold find_spec_url_from_review.
    pose proof (first_link_spec is_numbered links) as Hnumbered.
    assert (first_link urljoin is_numbered links = Some None ->
            exists l, l ∈ links
                      /\ (is_named l = true \/ is_numbered l = true)
                      /\ urljoin site_root (link_href l) = None) as Hraise.
    { intros E. destruct (Hin _ _ _ E) as (l & ? & ? & ?).
      exists l. split_and!; [done|by right|done]. }
    destruct (first_link urljoin is_named links) as [[u|]|] eqn:E1.
    + destruct (truthy u); [done|].
      destruct (first_link urljoin is_numbered links) as [[v|]|]; try done.
      intros _. left. by apply Hraise.
    + intros _. left. destruct (Hin _ _ _ E1) as (l & ? & ? & ?).
      exists l. split_and!; [done|by left|done].
    + destruct (first_link urljoin is_numbered links) as [[v|]|]; try done.
      * intros _. left. by apply Hraise.
      * intros _. by right.
Qed.

End SpecLinks.

(** ** The result of the extractor *)

Section SpecResult.

Import Py Specs.

Lemma truthy_ne s : truthy s = true -> s <> "".
Proof. by intros H ->. Qed.

Lemma all_filled_insert category m (specifications : gmap string entry) :
  filled m -> all_filled specifications ->
  all_filled (<[category := Fields m]> specifications).
Proof. intros Hm H. by apply map_Forall_insert_2. Qed.

Lemma all_filled_set_field category spec_name spec_value
    (specifications specifications' : gmap string entry) :
  truthy spec_name = true -> truthy spec_value = true ->
  set_field category spec_name spec_value specifications
  = Some specifications' ->
  all_filled specifications -> all_filled specifications'.
Proof.
  intros Hn Hv. unfold set_field.
  destruct (specifications !! category) as [[t|m]|] eqn:E; try done.
  intros [= <-] H. apply all_filled_insert; [|done].
  apply map_Forall_insert_2; [by split; apply truthy_ne|].
  by apply (H category (Fields m)).
Qed.

Lemma all_filled_primary_rows category rs
    (specifications specifications' : gmap string entry) :
  primary_rows category rs specifications = Some specifications' ->
  all_filled specifications -> all_filled specifications'.
Proof.
  revert specifications.
  induction rs as [|cells rs IH]; intros sp H; simpl in H; [by simplify_eq|].
  destruct cells as [|c0 [|c1 cells]]; eauto.
  destruct (truthy (collapse c0) && truthy (collapse c1)) eqn:Et; eauto.
  apply andb_true_iff in Et as [Hn Hv].
  destruct (set_field _ _ _ sp) as [sp1|] eqn:E; [|done].
  intros Hsp. eapply IH; [done|].
  by apply (all_filled_set_field _ _ _ _ _ Hn Hv E).
Qed.

Lemma all_filled_primary_tables ts
    (specifications specifications' : gmap string entry) :
  primary_tables ts specifications = Some specifications' ->
  all_filled specifications -> all_filled specifications'.
Proof.
  revert specifications.
  induction ts as [|table ts IH]; intros sp H; simpl in H; [by simplify_eq|].
  destruct (primary_rows _ _ _) as [sp1|] eqn:E; [|done].
  intros Hsp. eapply IH; [done|]. eapply all_filled_primary_rows; [done|].
  destruct (sp !! default "General" (previous_th table)); [done|].
  by apply all_filled_insert.
Qed.

Lemma filled_zip_fields cells values m :
  filled m -> filled (zip_fields cells values m).
Proof.
  revert values m. induction cells as [|c cells IH]; intros [|v values] m Hm;
    simpl; try done.
  apply IH. destruct (truthy c && truthy v) eqn:Et; [|done].
  apply andb_true_iff in Et as [? ?].
  apply map_Forall_insert_2; [by split; apply truthy_ne|done].
Qed.

Lemma filled_alternate_rows rs m :
  filled m -> filled (alternate_rows rs m).
Proof.
  revert m. induction rs as [|[cells values] rs IH]; intros m Hm; simpl; [done|].
  by apply IH, filled_zip_fields.
Qed.

Lemma alternate_tables_keeps ts (specifications : gmap string entry) :
  (all_filled specifications -> all_filled (alternate_tables ts specifications))
  /\ (forall k s,
        alternate_tables ts specifications !! k = Some (Name s) ->
        specifications !! k = Some (Name s)).
Proof.
  revert specifications. induction ts as [|table ts IH]; intros sp; simpl; [done|].
  destruct (header table) as [category|]; [|apply IH].
  destruct (IH (<[category := Fields (alternate_rows (tagged_rows table) ∅)]> sp))
    as [IH1 IH2].
  split.
  - intros Hsp. apply IH1, all_filled_insert; [|done].
    apply filled_alternate_rows, map_Forall_empty.
  - intros k s Hk. apply IH2 in Hk.
    destruct (decide (category = k)) as [->|Hne].
    + by rewrite lookup_insert_eq in Hk.
    + by rewrite lookup_insert_ne in Hk.
Qed.

(** In a result of the extractor no category holds a field with an empty
    name or an empty value, and the only entry that is a string is the
    title of the page, under the key [phone_name]. *)
Theorem scraped_fields_are_filled
    (resp : option spec_page) (specifications : gmap string entry) :
  scrape_specifications resp = Some specifications ->
  all_filled specifications
  /\ (forall k s,
        specifications !! k = Some (Name s) ->
        k = "phone_name"
        /\ exists page, resp = Some page /\ phone_title page = Some s).
Proof.
  unfold scrape_specifications. destruct resp as [page|]; [|done].
  destruct (primary_method page) as [sp|] eqn:E; [|done].
  assert (all_filled sp) as Hsp.
  { eapply all_filled_primary_tables; [exact E|].
    unfold title_entry. destruct (phone_title page).
    - by apply map_Forall_singleton.
    - apply map_Forall_empty. }
  assert (forall k s, sp !! k = Some (Name s) ->
            k = "phone_name"
            /\ exists page', Some page = Some page' /\ phone_title page' = Some s)
    as Hname.
  { intros k s Hk. pose proof (names_primary_method _ _ E) as Hn.
    assert (names sp !! k = Some (Name s)) as Hin.
    { unfold names. apply map_lookup_filter_Some. split; [done|]. simpl. tauto. }
    rewrite Hn in Hin. unfold title_entry in Hin.
    destruct (phone_title page) as [t|] eqn:Et; [|done].
    apply lookup_singleton_Some in Hin as [<- [= <-]]. split; [done|].
    by exists page. }
  destruct (alternate_runs sp); intros [= <-]; [|done].
  unfold alternate_method. destruct (specs_list page) as [ts|]; [|done].
  destruct (alternate_tables_keeps ts sp) as [H1 H2]. split; [by apply H1|].
  intros k s Hk. by apply Hname, H2.
Qed.

Lemma primary_rows_name category rs (specifications : gmap string entry) t :
  specifications !! category = Some (Name t) ->
  primary_rows category rs specifications
  = if existsb usable rs then None else Some specifications.
Proof.
  intros Hc. induction rs as [|cells rs IH]; simpl; [done|].
  destruct cells as [|c0 [|c1 cells]]; simpl; try done.
  destruct (truthy (collapse c0) && truthy (collapse c1)); simpl; [|done].
  unfold set_field. by rewrite Hc.
Qed.

Lemma primary_rows_fields category rs (specifications : gmap string entry) m :
  specifications !! category = Some (Fields m) ->
  exists m',
    primary_rows category rs specifications
    = Some (<[category := Fields m']> specifications).
Proof.
  revert specifications m.
  induction rs as [|cells rs IH]; intros sp m Hc; simpl.
  { exists m. by rewrite insert_id. }
  destruct cells as [|c0 [|c1 cells]]; eauto.
  destruct (truthy (collapse c0) && truthy (collapse c1)); eauto.
  unfold set_field. rewrite Hc.
  destruct (IH (<[category := Fields (<[collapse c0 := collapse c1]> m)]> sp)
              (<[collapse c0 := collapse c1]> m)) as [m' ->];
    [by rewrite lookup_insert_eq|].
  exists m'. by rewrite insert_insert_eq.
Qed.

Lemma primary_tables_fails ts (specifications : gmap string entry) :
  primary_tables ts specifications = None
  <-> Exists (fun table =>
                (exists t, specifications
                             !! default "General" (previous_th table)
                           = Some (Name t))
                /\ existsb usable (rows table) = true) ts.
Proof.
  revert specifications. induction ts as [|table ts IH]; intros sp; simpl.
  { split; [done|]. by intros ?%Exists_nil. }
  set (category := default "General" (previous_th table)).
  assert (forall m' (sp0 : gmap string entry),
             (forall c, c <> category -> sp0 !! c = sp !! c) ->
             (forall t, sp !! category <> Some (Name t)) ->
             primary_tables ts (<[category := Fields m']> sp0) = None
             <-> Exists (fun table0 =>
                           (exists t, sp !! default "General" (previous_th table0)
                                      = Some (Name t))
                           /\ existsb usable (rows table0) = true)
                   (table :: ts)) as Hstep.
  { intros m' sp0 Hsame Hcat. rewrite IH, Exists_cons.
    split.
    - intros H. right. eapply Exists_impl; [exact H|].
      intros table0 [[t Ht] Hu]. split; [|done]. exists t.
      destruct (decide (default "General" (previous_th table0) = category))
        as [Heq|Hne].
      + by rewrite Heq, lookup_insert_eq in Ht.
      + rewrite lookup_insert_ne in Ht by done. by rewrite <- Hsame.
    - intros [[[t Ht] _]|H]; [by destruct (Hcat t)|].
      eapply Exists_impl; [exact H|].
      intros table0 [[t Ht] Hu]. split; [|done]. exists t.
      destruct (decide (default "General" (previous_th table0) = category))
        as [Heq|Hne].
      + rewrite Heq in Ht. by destruct (Hcat t).
      + rewrite lookup_insert_ne by done. by rewrite Hsame. }
  destruct (sp !! category) as [[t|m]|] eqn:Ec.
  - rewrite (primary_rows_name category (rows table) sp t Ec), Exists_cons.
    destruct (existsb usable (rows table)) eqn:Eu.
    + split; [|done]. intros _. left. split; [by exists t|done].
    + rewrite IH. split; [by right|]. by intros [[_ ?]|?].
  - destruct (primary_rows_fields category (rows table) sp m Ec) as [m' ->].
    by apply Hstep.
  - destruct (primary_rows_fields category (rows table)
                (<[category := Fields ∅]> sp) ∅) as [m' ->];
      [by rewrite lookup_insert_eq|].
    rewrite insert_insert_eq. by apply Hstep.
Qed.

(** The extractor gives no result for a page that was fetched exactly when
    the page has a title and one of its tables stands under a header that
    reads [phone_name] and has a usable row: the row would be stored under
    the title, which is a string. *)
Theorem scrape_specifications_fails_under_a_phone_name_header
    (page : spec_page) :
  scrape_specifications (Some page) = None
  <-> is_Some (phone_title page)
      /\ Exists (fun table =>
                   previous_th table = Some "phone_name"
                   /\ existsb usable (rows table) = true)
            (spec_tables page).
Proof.
  assert (scrape_specifications (Some page) = None
          <-> primary_method page = None) as ->.
  { unfold scrape_specifications. destruct (primary_method page) as [sp|]; [|done].
    by destruct (alternate_runs sp). }
  unfold primary_method. rewrite primary_tables_fails, !Exists_exists.
  unfold title_entry. split.
  - intros (table & Hin & [t Ht] & Hu).
    destruct (phone_title page) as [title|]; [|done].
    apply lookup_singleton_Some in Ht as [Hc _]. split; [done|].
    exists table. split_and!; [done| |done].
    destruct (previous_th table) as [th|]; simpl in Hc; by simplify_eq.
  - intros ([title Htitle] & table & Hin & Hth & Hu). exists table.
    split_and!; [done| |done]. exists title.
    rewrite Htitle, Hth. simpl. apply lookup_singleton_eq.
Qed.

End SpecResult.

Lemma scraped_fields_are_filled_witness :
  Specs.all_filled Sample.titled_page_primary.
Proof.
  apply (scraped_fields_are_filled (Some Sample.titled_page)
           Sample.titled_page_primary).
  by vm_compute.
Defined.

(** ** The batch of specifications *)

Section SpecBatch.

Import Py Specs.
Context {World : Type}.
Variable urljoin : string -> string -> option string.
Variable get_review_page : string -> World -> option (list link) * World.
Variable get_spec_page : string -> World -> option spec_page * World.

(** What one round of the loop does to the list and to the file. *)
Lemma scrape_phone_spec p all_specifications
    (st : World * option (list (gmap string value))) :
  let out := scrape_phone urljoin get_review_page get_spec_page p
               all_specifications st in
  (out.1 = all_specifications /\ out.2.2 = st.2)
  \/ (exists spec_url page scraped,
        spec_url <> ""
        /\ scrape_specifications page = Some scraped
        /\ scraped <> ∅
        /\ out.1
           = all_specifications
             ++ [<["_metadata" := metadata_of p spec_url]> (Scraped <$> scraped)]
        /\ out.2.2 = Some out.1).
Proof.
  unfold scrape_phone.
  destruct (get_review_page (info_review_url p) st.1) as [review w].
  destruct (find_spec_url_from_review urljoin review) as [spec_url|];
    [|by left].
  destruct (truthy spec_url) eqn:Eu; [|by left].
  destruct (get_spec_page spec_url w) as [page w'].
  destruct (scrape_specifications page) as [scraped|] eqn:Es; [|by left].
  case_bool_decide as Hempty; [by left|].
  right. exists spec_url, page, scraped. split_and!; try done.
  by apply truthy_ne.
Qed.

Lemma scrape_loop_spec phone_data all_specifications
    (st : World * option (list (gmap string value))) :
  let out := scrape_loop urljoin get_review_page get_spec_page phone_data
               all_specifications st in
  exists added,
    out.1 = all_specifications ++ added
    /\ (length added <= length phone_data)%nat
    /\ out.2.2 = match added with [] => st.2 | _ :: _ => Some out.1 end
    /\ Forall (fun specifications =>
                 exists p spec_url page scraped,
                   p ∈ phone_data
                   /\ spec_url <> ""
                   /\ scrape_specifications page = Some scraped
                   /\ scraped <> ∅
                   /\ specifications
                      = <["_metadata" := metadata_of p spec_url]>
                          (Scraped <$> scraped))
         added.
Proof.
  revert all_specifications st.
  induction phone_data as [|p rest IH]; intros acc st; simpl.
  { exists []. by rewrite app_nil_r. }
  pose proof (scrape_phone_spec p acc st) as Hp.
  destruct (scrape_phone urljoin get_review_page get_spec_page p acc st)
    as [acc' st'].
  destruct (IH acc' st') as (added & H1 & H2 & H3 & H4). simpl in Hp.
  assert (Forall (fun specifications =>
                    exists p0 spec_url page scraped,
                      p0 ∈ p :: rest
                      /\ spec_url <> ""
                      /\ scrape_specifications page = Some scraped
                      /\ scraped <> ∅
                      /\ specifications
                         = <["_metadata" := metadata_of p0 spec_url]>
                             (Scraped <$> scraped))
            added) as H4'.
  { eapply Forall_impl; [exact H4|].
    intros s (p0 & u & page & scraped & ? & ?).
    exists p0, u, page, scraped. split; [by right|done]. }
  destruct Hp as [[-> Hfile]|(u & page & scraped & Hu & Hs & Hne & -> & Hfile)].
  - exists added. split_and!; [done|lia| |done].
    rewrite H3. destruct added; [done|done].
  - exists (<["_metadata" := metadata_of p u]> (Scraped <$> scraped) :: added).
    split_and!.
    + by rewrite H1, <- (assoc_L (++)).
    + simpl. lia.
    + rewrite H3. destruct added; [|done].
      by rewrite Hfile, H1, app_nil_r.
    + constructor; [|done]. exists p, u, page, scraped.
      split_and!; [by left|done..].
Qed.

(** Every entry of the list that [scrape_specs_from_csv] returns is a
    result of the extractor that was not empty, with the metadata added
    under [_metadata]: the review URL of a row of the CSV file, which is
    not empty, a specification URL that is not empty, and the name and
    the date of that row, which are [Unknown] where the row has no such
    column and [None] where its cell is.  The list is no longer than the
    rows, and no longer than a positive maximum.  The list last given to
    [save_to_json] for the output file is the list that is returned,
    unless that list is empty: then [save_to_json] was not called.  A CSV
    file that cannot be read gives the empty list. *)
Theorem scraped_phones_carry_their_metadata
    (rows : list csv_row) (max_phones : option Z)
    (start_from : Z) (st : World * option (list (gmap string value))) :
  let out := scrape_specs_from_csv urljoin get_review_page get_spec_page
               (Some rows) max_phones start_from st in
  Forall (fun specifications =>
            exists row review_url spec_url page scraped,
              row ∈ rows
              /\ row !! "review_url" = Some (Some review_url)
              /\ review_url <> ""
              /\ spec_url <> ""
              /\ scrape_specifications page = Some scraped
              /\ scraped <> ∅
              /\ specifications
                 = <["_metadata" :=
                       Metadata
                         {| meta_phone_name :=
                              default (Some "Unknown") (row !! "phone_name");
                            meta_review_url := review_url;
                            meta_spec_url := spec_url;
                            meta_date :=
                              default (Some "Unknown") (row !! "date") |}]>
                     (Scraped <$> scraped))
    out.1
  /\ (length out.1 <= length rows)%nat
  /\ (forall m, max_phones = Some m -> 0 < m -> Z.of_nat (length out.1) <= m)
  /\ out.2.2 = match out.1 with [] => st.2 | _ :: _ => Some out.1 end
  /\ scrape_specs_from_csv urljoin get_review_page get_spec_page
       None max_phones start_from st = ([], st).
Proof.
  intros out. subst out. unfold scrape_specs_from_csv.
  match goal with
  | |- context [scrape_loop _ _ _ ?phones _ _] => set (selected := phones)
  end.
  assert (forall p, p ∈ selected -> p ∈ omap read_phone rows) as Hsel.
  { intros p. subst selected. intros Hp.
    assert (forall (l : list phone_info) n, p ∈ slice_to n l -> p ∈ l) as Hto.
    { intros l n. unfold slice_to.
      destruct (0 <=? n); intros H; by eapply elem_of_sublist, sublist_take. }
    assert (forall (l : list phone_info) n, p ∈ slice_from n l -> p ∈ l)
      as Hfrom.
    { intros l n. unfold slice_from.
      destruct (0 <=? n); intros H; by eapply elem_of_sublist, sublist_drop. }
    destruct max_phones as [m|]; [destruct (m =? 0)|];
      destruct (0 <? start_from); eauto. }
  assert (length (omap read_phone rows) <= length rows)%nat as Homap.
  { clear. induction rows as [|row rows IH]; [done|].
    cbn [omap list_omap]. destruct (read_phone row); simpl in *; lia. }
  assert (length selected <= length rows)%nat as Hlen.
  { subst selected. unfold slice_to, slice_from.
    repeat match goal with
           | |- context [if ?c then _ else _] => destruct c
           | |- context [match ?c with Some _ => _ | None => _ end] => destruct c
           end;
      rewrite ?length_take, ?length_drop; lia. }
  assert (forall m, max_phones = Some m -> 0 < m ->
                    Z.of_nat (length selected) <= m) as Hmax.
  { intros m -> Hm. subst selected. cbv beta.
    destruct (Z.eqb_spec m 0) as [|_]; [lia|]. unfold slice_to.
    destruct (Z.leb_spec 0 m); [|lia]. rewrite length_take. lia. }
  destruct (scrape_loop_spec selected [] st) as (added & H1 & H2 & H3 & H4).
  simpl in H1. rewrite H1 in *. split_and!; [|lia| |done|done].
  - eapply Forall_impl; [exact H4|].
    intros s (p & u & page & scraped & Hp & Hu & Hs & Hne & Heq).
    apply Hsel, list_elem_of_omap in Hp as (row & Hrow & Hread).
    unfold read_phone in Hread.
    destruct (row !! "review_url") as [[r|]|] eqn:Er; try done.
    destruct (truthy r) eqn:Et; [|done]. simplify_eq.
    exists row, r, u, page, scraped.
    split_and!; [done|done|by apply truthy_ne|done..].
  - intros m Hm Hpos. specialize (Hmax m Hm Hpos). lia.
Qed.

End SpecBatch.

(** ** The CSV file of the specifications *)

Section SpecCsv.

Import Py Specs.

Lemma str_leb_trans a b c :
  String.leb a b = true -> String.leb b c = true -> String.leb a c = true.
Proof.
  unfold String.leb. revert b c.
  induction a as [|x a IH]; intros [|y b] [|z c]; simpl; try done.
  unfold Ascii.compare.
  destruct (N.compare_spec (N_of_ascii x) (N_of_ascii y)) as [E1|L1|G1];
    try done;
    destruct (N.compare_spec (N_of_ascii y) (N_of_ascii z)) as [E2|L2|G2];
    try done; intros H1 H2.
  - rewrite E1, E2, N.compare_refl. by eapply IH.
  - rewrite E1. by rewrite (proj2 (N.compare_lt_iff _ _) L2).
  - rewrite <- E2. by rewrite (proj2 (N.compare_lt_iff _ _) L1).
  - by rewrite (proj2 (N.compare_lt_iff _ _) (N.lt_trans _ _ _ L1 L2)).
Qed.

Global Instance str_le_total : Total str_le.
Proof. intros a b. apply String.leb_total. Qed.

Global Instance str_le_trans : Transitive str_le.
Proof. intros a b c. apply str_leb_trans. Qed.

Lemma metadata_cols_nodup : NoDup metadata_cols.
Proof.
  unfold metadata_cols. repeat (apply NoDup_cons; split);
    [rewrite ?elem_of_cons, ?elem_of_nil; intuition congruence..|apply NoDup_nil_2].
Qed.

Lemma csv_columns_elem rows c :
  c ∈ csv_columns rows <-> exists row, row ∈ rows /\ is_Some (row !! c).
Proof.
  unfold csv_columns. rewrite elem_of_app, merge_sort_Permutation.
  rewrite !list_elem_of_filter, elem_of_elements, elem_of_union_list.
  assert ((exists X : gset string, X ∈ dom <$> rows /\ c ∈ X)
          <-> exists row, row ∈ rows /\ is_Some (row !! c)) as ->.
  { split.
    - intros (X & (row & -> & Hrow)%list_elem_of_fmap & Hc).
      exists row. split; [done|]. by apply elem_of_dom.
    - intros (row & Hrow & Hc). exists (dom row). split.
      + apply list_elem_of_fmap. by exists row.
      + by apply elem_of_dom. }
  destruct (decide (c ∈ metadata_cols)); tauto.
Qed.

Lemma csv_columns_shape rows :
  exists meta spec_cols,
    csv_columns rows = meta ++ spec_cols
    /\ meta `sublist_of` metadata_cols
    /\ Forall (fun c => c ∉ metadata_cols) spec_cols
    /\ StronglySorted str_le spec_cols
    /\ NoDup (meta ++ spec_cols).
Proof.
  unfold csv_columns.
  set (all_columns := ⋃ (dom <$> rows) : gset string).
  set (others := filter (fun col => col ∉ metadata_cols) (elements all_columns)).
  exists (filter (fun col => col ∈ all_columns) metadata_cols),
    (merge_sort str_le others).
  assert (Forall (fun c => c ∉ metadata_cols) (merge_sort str_le others))
    as Hothers.
  { apply Forall_forall. intros c. rewrite merge_sort_Permutation.
    subst others. by intros [? _]%list_elem_of_filter. }
  split_and!; [done|apply sublist_filter|done|
               apply (StronglySorted_merge_sort str_le)|].
  apply NoDup_app. split_and!.
  - apply NoDup_filter, metadata_cols_nodup.
  - intros c [_ Hc]%list_elem_of_filter Hc'.
    by eapply Forall_forall in Hothers.
  - rewrite merge_sort_Permutation. apply NoDup_filter, NoDup_elements.
Qed.

(** With the header of [csv_columns] the writer rejects no row. *)
Lemma write_rows_all fieldnames rows table :
  Forall (fun row : gmap string string =>
            forall c, is_Some (row !! c) -> c ∈ fieldnames) rows ->
  write_rows fieldnames rows table
  = (true,
     table ++ ((fun row => (fun key => default "" (row !! key)) <$> fieldnames)
                 <$> rows)).
Proof.
  intros Hrows. revert table.
  induction Hrows as [|row rows Hrow _ IH]; intros table; simpl.
  { by rewrite app_nil_r. }
  unfold dict_to_list. rewrite bool_decide_true.
  - by rewrite IH, <- (assoc_L (++)).
  - intros c Hc%elem_of_dom. apply elem_of_list_to_set. by apply Hrow.
Qed.

Lemma flatten_phone_is_Some items :
  is_Some (flatten_phone items)
  <-> forall s, dict_get items "_metadata" = Some (Name s) -> s = "".
Proof.
  unfold flatten_phone.
  destruct (dict_get items "_metadata") as [[s|m]|]; [|by split; [|eauto]..].
  destruct s as [|c s]; simpl.
  - split; [by intros _ ? [= <-]|eauto].
  - split; [by intros []|]. intros H. by specialize (H _ eq_refl).
Qed.

(** [save_specs_to_csv] returns true exactly when there is a phone, the
    file can be opened, and no phone has a string that is not empty under
    [_metadata].  Whenever the file is opened the value is true: the
    header holds every key of every flattened row, so that no row is
    rejected, and the file holds the header and one line for each phone.
    In the header no column stands twice; the metadata columns that occur
    come first, in their fixed order, and the other columns follow in
    the order of their names. *)
Theorem save_specs_to_csv_writes_every_phone
    (data : list phone_specs) (can_open : bool) :
  ((save_specs_to_csv data can_open).1 = true
   <-> data <> [] /\ can_open = true
       /\ Forall (fun items =>
                    forall s, dict_get items "_metadata" = Some (Name s) ->
                              s = "") data)
  /\ ((save_specs_to_csv data can_open).1 = true
      <-> is_Some (save_specs_to_csv data can_open).2)
  /\ (forall table,
        (save_specs_to_csv data can_open).2 = Some table ->
        exists flattened_data columns meta spec_cols,
          flatten_specs_for_csv data = Some flattened_data
          /\ length flattened_data = length data
          /\ table
             = columns
               :: ((fun row => (fun key => default "" (row !! key)) <$> columns)
                     <$> flattened_data)
          /\ (forall c, c ∈ columns
                        <-> exists row, row ∈ flattened_data
                                        /\ is_Some (row !! c))
          /\ NoDup columns
          /\ columns = meta ++ spec_cols
          /\ meta `sublist_of` metadata_cols
          /\ Forall (fun c => c ∉ metadata_cols) spec_cols
          /\ StronglySorted str_le spec_cols).
Proof.
  assert (is_Some (flatten_specs_for_csv data)
          <-> Forall (fun items =>
                        forall s, dict_get items "_metadata" = Some (Name s) ->
                                  s = "") data) as Hflat.
  { unfold flatten_specs_for_csv. rewrite mapM_is_Some.
    apply Forall_proper; [|done]. intros items. apply flatten_phone_is_Some. }
  destruct data as [|items data].
  { simpl. split_and!; [| |done].
    - split; [done|]. by intros [? _].
    - split; [done|]. by intros []. }
  unfold save_specs_to_csv.
  destruct (flatten_specs_for_csv (items :: data)) as [flattened_data|] eqn:E.
  2:{ simpl. split_and!; [| |done].
      - split; [done|]. intros (_ & _ & H). apply Hflat in H. by destruct H.
      - split; [done|]. by intros []. }
  assert (length flattened_data = length (items :: data)) as Hlen.
  { unfold flatten_specs_for_csv in E. apply mapM_Some in E.
    symmetry. by eapply Forall2_length. }
  destruct flattened_data as [|row flattened_data]; [done|].
  destruct can_open.
  2:{ simpl. split_and!; [| |done].
      - split; [done|]. by intros (_ & ? & _).
      - split; [done|]. by intros []. }
  rewrite write_rows_all.
  2:{ apply Forall_forall. intros r Hr c Hc. apply csv_columns_elem. eauto. }
  cbn [fst snd]. split_and!.
  - split; [|done]. intros _. split_and!; [done..|]. apply Hflat. eauto.
  - split; [eauto|done].
  - intros table [= <-].
    destruct (csv_columns_shape (row :: flattened_data))
      as (meta & spec_cols & Hcols & Hmeta & Hspec & Hsorted & Hnodup).
    exists (row :: flattened_data), (csv_columns (row :: flattened_data)),
      meta, spec_cols.
    split_and!; [done|done|done|apply csv_columns_elem| |done..].
    by rewrite Hcols.
Qed.

End SpecCsv.

(** ** The flattened row of a phone *)

Section SpecRows.

Import Py Specs.

Lemma column_name_inj category n n' :
  column_name category n = column_name category n' -> n = n'.
Proof.
  unfold column_name. intros H%(inj (String.append category)).
  by apply (inj (String.append " - ")) in H.
Qed.

Lemma column_name_dash category n :
  contains " - " (column_name category n) = true.
Proof.
  unfold column_name.
  destruct (contains " - " (category +:+ " - " +:+ n)) eqn:E; [done|].
  apply contains_false in E. exfalso. revert E.
  apply find_sub_suffix. by rewrite find_sub_eq.
Qed.

(** What the inner loop leaves in the row. *)
Lemma flatten_category_spec category (m row : gmap string string) :
  let out := flatten_category category m row in
  (forall n v, m !! n = Some v -> out !! column_name category n = Some v)
  /\ (forall c, (forall n, is_Some (m !! n) -> c <> column_name category n) ->
                out !! c = row !! c)
  /\ (forall c v, out !! c = Some v ->
                  row !! c = Some v
                  \/ exists n, m !! n = Some v /\ c = column_name category n)
  /\ (forall c, is_Some (row !! c) -> is_Some (out !! c)).
Proof.
  unfold flatten_category.
  apply (map_fold_weak_ind
           (fun (out : gmap string string) (m : gmap string string) =>
              (forall n v, m !! n = Some v ->
                           out !! column_name category n = Some v)
              /\ (forall c, (forall n, is_Some (m !! n) ->
                                       c <> column_name category n) ->
                            out !! c = row !! c)
              /\ (forall c v, out !! c = Some v ->
                              row !! c = Some v
                              \/ exists n, m !! n = Some v
                                           /\ c = column_name category n)
              /\ (forall c, is_Some (row !! c) -> is_Some (out !! c)))).
  { split_and!; [done|done|by left|done]. }
  clear m. intros i x m out Hi (H1 & H2 & H3 & H4). split_and!.
  - intros n v Hn. destruct (decide (i = n)) as [->|Hne].
    + rewrite lookup_insert_eq in Hn. simplify_eq. by rewrite lookup_insert_eq.
    + rewrite lookup_insert_ne in Hn by done.
      rewrite lookup_insert_ne; [by apply H1|].
      by intros ?%column_name_inj.
  - intros c Hc. rewrite lookup_insert_ne.
    + apply H2. intros n Hn. apply Hc.
      destruct (decide (i = n)) as [->|Hne]; [by rewrite lookup_insert_eq|].
      by rewrite lookup_insert_ne.
    + intros Heq. apply (Hc i); [by rewrite lookup_insert_eq|done].
  - intros c v Hc. destruct (decide (column_name category i = c)) as [<-|Hne].
    + rewrite lookup_insert_eq in Hc. simplify_eq. right. exists i.
      by rewrite lookup_insert_eq.
    + rewrite lookup_insert_ne in Hc by done.
      destruct (H3 c v Hc) as [?|(n & Hn & ->)]; [by left|]. right. exists n.
      split; [|done]. rewrite lookup_insert_ne; [done|]. intros ->. congruence.
  - intros c Hc. destruct (decide (column_name category i = c)) as [<-|Hne].
    + by rewrite lookup_insert_eq.
    + rewrite lookup_insert_ne by done. by apply H4.
Qed.

(** What the loop over the categories leaves in the row. *)
Lemma flatten_items_spec items (row : gmap string string) :
  let out := flatten_items items row in
  (forall c v, out !! c = Some v ->
               row !! c = Some v
               \/ exists category m n,
                    (category, Fields m) ∈ items
                    /\ category <> "_metadata"
                    /\ m !! n = Some v
                    /\ c = column_name category n)
  /\ (forall c, is_Some (row !! c) -> is_Some (out !! c))
  /\ (forall category m n,
        (category, Fields m) ∈ items -> category <> "_metadata" ->
        is_Some (m !! n) -> is_Some (out !! column_name category n))
  /\ (forall c, contains " - " c = false -> out !! c = row !! c).
Proof.
  revert row. induction items as [|[category [s|m]] items IH]; intros row.
  - simpl. split_and!; [by left|done| |done]. by intros ? ? ? ?%elem_of_nil.
  - simpl. destruct (IH row) as (H1 & H2 & H3 & H4). split_and!; [|done| |done].
    + intros c v Hc. destruct (H1 c v Hc) as [?|(cat & m & n & Hin & ?)];
        [by left|].
      right. exists cat, m, n. split; [by right|done].
    + intros cat m n [[=]|Hin]%elem_of_cons; by eapply H3.
  - cbn [flatten_items].
    destruct (String.eqb_spec category "_metadata") as [->|Hcat]; cbn [negb].
    + destruct (IH row) as (H1 & H2 & H3 & H4). split_and!; [|done| |done].
      * intros c v Hc. destruct (H1 c v Hc) as [?|(cat & m' & n & Hin & ?)];
          [by left|].
        right. exists cat, m', n. split; [by right|done].
      * intros cat m' n [[= -> ->]|Hin]%elem_of_cons; [done|by eapply H3].
    + destruct (IH (flatten_category category m row)) as (H1 & H2 & H3 & H4).
      destruct (flatten_category_spec category m row) as (F1 & F2 & F3 & F4).
      split_and!.
      * intros c v Hc. destruct (H1 c v Hc) as [Hc'|(cat & m' & n & Hin & ?)].
        -- destruct (F3 c v Hc') as [?|(n & Hn & ->)]; [by left|].
           right. exists category, m, n. split; [by left|done].
        -- right. exists cat, m', n. split; [by right|done].
      * intros c Hc. by apply H2, F4.
      * intros cat m' n [[= -> ->]|Hin]%elem_of_cons Hne [v Hn].
        -- apply H2. rewrite (F1 n v Hn). eauto.
        -- by eapply H3.
      * intros c Hc. rewrite (H4 c Hc). apply F2. intros n _ ->.
        by rewrite column_name_dash in Hc.
Qed.

(** A flattened row holds nothing but values of the phone: each cell is a
    value of the metadata under its own name, or the value of a field of a
    category other than [_metadata] under the name of the category, a
    hyphen between two spaces, and the name of the field.  Each field of
    such a category and each key of the metadata has its column, and a
    key of the metadata that holds no such hyphen keeps its value. *)
Theorem flattened_row_holds_the_fields
    (items : phone_specs) (row : gmap string string) :
  flatten_phone items = Some row ->
  let metadata :=
    match dict_get items "_metadata" with
    | Some (Fields m) => m
    | _ => ∅
    end in
  (forall c v, row !! c = Some v ->
               metadata !! c = Some v
               \/ exists category m n,
                    (category, Fields m) ∈ items
                    /\ category <> "_metadata"
                    /\ m !! n = Some v
                    /\ c = column_name category n)
  /\ (forall c, is_Some (metadata !! c) -> is_Some (row !! c))
  /\ (forall category m n,
        (category, Fields m) ∈ items -> category <> "_metadata" ->
        is_Some (m !! n) -> is_Some (row !! column_name category n))
  /\ (forall c, contains " - " c = false -> row !! c = metadata !! c).
Proof.
  intros H metadata. unfold flatten_phone in H.
  assert (row = flatten_items items metadata) as ->.
  { subst metadata. destruct (dict_get items "_metadata") as [[s|m]|];
      [destruct (truthy s); [done|]|..]; by simplify_eq. }
  apply flatten_items_spec.
Qed.

End SpecRows.

Lemma flattened_row_holds_the_fields_witness :
  exists row,
    Specs.flatten_phone Sample.vivo_items = Some row
    /\ row !! "phone_name" = Some Sample.vivo_name.
Proof.
  eexists. split; [reflexivity|].
  destruct (flattened_row_holds_the_fields Sample.vivo_items _ eq_refl)
    as (_ & _ & _ & H).
  rewrite (H "phone_name"); reflexivity.
Defined.
